(** * Spicetify History: the record store, its views and its bulk transfer

    A shallow embedding of [src/db.ts] (the IndexedDB layer), of the
    view code of [src/app.tsx] ([sortSongs], [handleSearchChange]) and of
    the import validator [isValidSong].

    Conventions of the embedding.
    - A JavaScript [number] is a rational ([Q]): every finite double is
      one, and the sign of [a - b] on finite doubles is the sign of the
      exact difference.  Infinities and NaN are outside the model.
    - A JavaScript string is a [string], the sequence of its code units;
      key order is the order of the code units.
    - The built-ins of the host that no program of this size can spell
      out, [String.prototype.localeCompare] and
      [String.prototype.toLowerCase], are parameters; of the second only
      its action on ASCII text is assumed.
    - The object store "history" of [openDB] (key path "uid", unique index
      "uri") is the list of its rows in key order, the order in which
      [getAll] returns them.  The behaviour of the IndexedDB requests
      ([add], [put], [delete], [getAll], index [get]) is the one of the
      IndexedDB standard.
    - [Spicetify.showNotification] appends to a list of messages. *)

From Stdlib Require Import List String Ascii Bool QArith NArith Lia.
From Stdlib Require Import DecimalString PeanoNat.
From Stdlib Require Import Sorting.Sorted Sorting.Permutation.
From Stdlib Require Import Structures.OrderedTypeEx.
Import ListNotations.

Local Open Scope string_scope.
Local Open Scope list_scope.

(** ** Values produced by [JSON.parse] *)

#[local] Set Warnings "-register-all".

Inductive json : Type :=
| JNull
| JBool (b : bool)
| JNumber (q : Q)
| JString (s : string)
| JArray (items : list json)
| JObject (fields : list (string * json)).

(** ** The [Song] interface of db.ts *)

(** [extension.tsx] fills [album] from [song.album?.uri] and
    [song.album?.name], so either may be [undefined] in a stored row. *)
Record Album : Type := mkAlbum {
  album_name : option string;
  album_uri : option string
}.

Record Artist : Type := mkArtist {
  artist_uri : string;
  artist_name : string
}.

Record Image : Type := mkImage {
  image_url : string;
  image_label : string
}.

Record Song : Type := mkSong {
  uid : string;
  uri : string;
  name : string;
  duration_milliseconds : Q;
  album : Album;
  artists : list Artist;
  metadata : json;
  images : list Image;
  listenDate : Q
}.

(** [foundSong.listenDate = song.listenDate]: the assignment of
    [saveSongToDB], every other property untouched. *)
Definition set_listenDate (s : Song) (t : Q) : Song :=
  {| uid := uid s; uri := uri s; name := name s;
     duration_milliseconds := duration_milliseconds s;
     album := album s; artists := artists s; metadata := metadata s;
     images := images s; listenDate := t |}.

(** ** IndexedDB: the object store "history" *)

Module IDB.

(** The errors a request can end with: a violated uniqueness constraint
    (the key path or the unique index), or a failure of the storage
    engine itself, with its message. *)
Inductive DOMException : Type :=
| ConstraintError
| EngineError (message : string).

Inductive request (A : Type) : Type :=
| Success (result : A)
| Failure (error : DOMException).
Arguments Success {A} result.
Arguments Failure {A} error.

(** A connection: the rows of "history" in key order, and the fault, if
    any, with which the engine fails every request. *)
Record IDBDatabase : Type := mkDB {
  fault : option string;
  history : list Song
}.

Definition open_db (rows : list Song) : IDBDatabase :=
  {| fault := None; history := rows |}.

Definition with_history (db : IDBDatabase) (rows : list Song) : IDBDatabase :=
  {| fault := fault db; history := rows |}.

(** [objectStore.index("uri").get(u)]: the row of that uri, if any. *)
Definition index_get (u : string) (rows : list Song) : option Song :=
  find (fun s => uri s =? u) rows.

Definition key_exists (k : string) (rows : list Song) : bool :=
  existsb (fun s => uid s =? k) rows.

Definition uri_exists (u : string) (rows : list Song) : bool :=
  existsb (fun s => uri s =? u) rows.

(** Storing a record under its key: a row of the same key is replaced,
    otherwise the record takes its place in key order. *)
Fixpoint store_record (r : Song) (rows : list Song) : list Song :=
  match rows with
  | [] => [r]
  | x :: rest =>
      match String.compare (uid r) (uid x) with
      | Lt => r :: x :: rest
      | Eq => r :: rest
      | Gt => x :: store_record r rest
      end
  end.

(** [objectStore.add(r)]: fails when the key is taken or when another
    row has the uri. *)
Definition add (r : Song) (rows : list Song) : request (list Song) :=
  if key_exists (uid r) rows then Failure ConstraintError
  else if uri_exists (uri r) rows then Failure ConstraintError
  else Success (store_record r rows).

(** [objectStore.put(r)]: overwrites the row of that key; fails when a
    row of another key has the uri. *)
Definition put (r : Song) (rows : list Song) : request (list Song) :=
  if existsb (fun s => (uri s =? uri r) && negb (uid s =? uid r)) rows
  then Failure ConstraintError
  else Success (store_record r rows).

(** [objectStore.delete(k)]: succeeds whether or not the key exists. *)
Definition delete (k : string) (rows : list Song) : list Song :=
  filter (fun s => negb (uid s =? k)) rows.

End IDB.
Import IDB.

(** ** Promises *)

Inductive settled (A : Type) : Type :=
| Resolved (value : A)
| Rejected (reason : DOMException).
Arguments Resolved {A} value.
Arguments Rejected {A} reason.

(** ** db.ts *)

(** [saveSongToDB(db, song)].  A request that fails without its error
    being handled aborts the transaction, so a rejected call leaves the
    rows as they were.  The source rejects with the error's message; the
    model keeps the error the message belongs to. *)
Definition saveSongToDB (db : IDBDatabase) (song : Song)
  : settled unit * IDBDatabase :=
  match fault db with
  | Some message => (Rejected (EngineError message), db)
  | None =>
      match index_get (uri song) (history db) with
      | Some foundSong =>
          match put (set_listenDate foundSong (listenDate song)) (history db) with
          | Success rows => (Resolved tt, with_history db rows)
          | Failure e => (Rejected e, db)
          end
      | None =>
          match add song (history db) with
          | Success rows => (Resolved tt, with_history db rows)
          | Failure e => (Rejected e, db)
          end
      end
  end.

(** [getHistoryFromDB(db)] *)
Definition getHistoryFromDB (db : IDBDatabase) : settled (list Song) :=
  match fault db with
  | Some message => Rejected (EngineError message)
  | None => Resolved (history db)
  end.

(** [Spicetify.showNotification] calls of one run, oldest first. *)
Definition notifications : Type := list string.

Record delete_run : Type := mkDeleteRun {
  delete_settled : settled unit;
  delete_db : IDBDatabase;
  delete_notifications : notifications
}.

(** [deleteSongFromDB(db, uid)] *)
Definition deleteSongFromDB (db : IDBDatabase) (k : string) : delete_run :=
  match fault db with
  | Some message =>
      {| delete_settled := Rejected (EngineError message);
         delete_db := db;
         delete_notifications := ["Deleting song..."; "Failed to delete song"] |}
  | None =>
      {| delete_settled := Resolved tt;
         delete_db := with_history db (delete k (history db));
         delete_notifications := ["Deleting song..."; "Song deleted"] |}
  end.

(** [clearHistoryFromDB(db)] *)
Definition clearHistoryFromDB (db : IDBDatabase) : delete_run :=
  match fault db with
  | Some message =>
      {| delete_settled := Rejected (EngineError message);
         delete_db := db;
         delete_notifications := ["Clearing history..."; "Failed to clear history"] |}
  | None =>
      {| delete_settled := Resolved tt;
         delete_db := with_history db [];
         delete_notifications := ["Clearing history..."; "History cleared"] |}
  end.

(** ** [Array.prototype.sort]

    The sort of the language is stable and orders by the sign of the
    compare function.  Insertion from the right end is one such sort: an
    element goes in front of the first one it does not exceed, so it
    stays ahead of the later elements that compare equal to it. *)
Section ArraySort.
Context {A : Type}.
Variable compareFn : A -> A -> Q.

Fixpoint sort_insert (x : A) (sorted : list A) : list A :=
  match sorted with
  | [] => [x]
  | y :: rest =>
      if Qle_bool (compareFn x y) 0 then x :: y :: rest
      else y :: sort_insert x rest
  end.

Fixpoint Array_sort (l : list A) : list A :=
  match l with
  | [] => []
  | x :: rest => sort_insert x (Array_sort rest)
  end.
End ArraySort.

(** ** Export *)

Definition opt_field (k : string) (v : option string) : list (string * json) :=
  match v with
  | Some s => [(k, JString s)]
  | None => []
  end.

(** The JSON form of a row, properties in the order in which
    [extension.tsx] builds them; [JSON.stringify] leaves out a property
    whose value is [undefined]. *)
Definition Song_toJSON (s : Song) : json :=
  JObject
    [ ("uid", JString (uid s));
      ("uri", JString (uri s));
      ("name", JString (name s));
      ("duration", JObject [("milliseconds", JNumber (duration_milliseconds s))]);
      ("album", JObject (opt_field "uri" (album_uri (album s))
                         ++ opt_field "name" (album_name (album s))));
      ("artists", JArray (map (fun a => JObject [("name", JString (artist_name a));
                                                 ("uri", JString (artist_uri a))])
                              (artists s)));
      ("metadata", metadata s);
      ("images", JArray (map (fun i => JObject [("label", JString (image_label i));
                                                ("url", JString (image_url i))])
                             (images s)));
      ("listenDate", JNumber (listenDate s)) ].

(** The document that [JSON.stringify(history, null, 2)] writes, as the
    value it denotes. *)
Definition JSON_stringify (history : list Song) : json :=
  JArray (map Song_toJSON history).

Record export_run : Type := mkExportRun {
  export_settled : settled unit;
  export_notifications : notifications;
  export_download : option (string * json)
}.

(** [exportHistoryAsFile(db)]: the promise resolves with no value on
    every path; what happened is told by the notifications and by the
    file handed to the browser, if any. *)
Definition exportHistoryAsFile (db : IDBDatabase) : export_run :=
  match getHistoryFromDB db with
  | Rejected _ =>
      {| export_settled := Resolved tt;
         export_notifications := ["Exporting history..."; "Failed to export history"];
         export_download := None |}
  | Resolved history =>
      if Nat.eqb (List.length history) 0 then
        {| export_settled := Resolved tt;
           export_notifications := ["Exporting history..."; "No history to export"];
           export_download := None |}
      else
        let sorted := Array_sort (fun a b => listenDate a - listenDate b) history in
        {| export_settled := Resolved tt;
           export_notifications := ["Exporting history..."; "History exported"];
           export_download := Some ("spicetify-history-download", JSON_stringify sorted) |}
  end.

(** ** Property access and [typeof] on parsed values *)

Inductive exn : Type :=
| TypeError
| SyntaxError
| Error (message : string).

(** The outcome of evaluating an expression: a value, or a throw. *)
Inductive completion (A : Type) : Type :=
| Normal (value : A)
| Throw (e : exn).
Arguments Normal {A} value.
Arguments Throw {A} e.

Definition bind {A B : Type} (c : completion A) (k : A -> completion B)
  : completion B :=
  match c with
  | Normal a => k a
  | Throw e => Throw e
  end.

Notation "x <- c ;; k" := (bind c (fun x => k))
  (at level 61, c at next level, right associativity).

(** [a && b] on booleans: [b] is evaluated only when [a] is [true]. *)
Definition and_then (a b : completion bool) : completion bool :=
  ok <- a ;; if ok then b else Normal false.

Infix "&&&" := and_then (at level 40, left associativity).

(** Own property of a parsed object; of two equal names the later one
    is the one [JSON.parse] keeps. *)
Fixpoint own_property (k : string) (fields : list (string * json)) : option json :=
  match fields with
  | [] => None
  | (k', v) :: rest =>
      match own_property k rest with
      | Some w => Some w
      | None => if k' =? k then Some v else None
      end
  end.

(** [v.k] for the property names this program reads, none of which is
    on a prototype: [undefined] ([None]) unless [v] is an object that has
    it, and a [TypeError] when [v] is [null]. *)
Definition get (v : json) (k : string) : completion (option json) :=
  match v with
  | JNull => Throw TypeError
  | JObject fields => Normal (own_property k fields)
  | _ => Normal None
  end.

(** [v?.k] where [v] may be [undefined]. *)
Definition get_opt (v : option json) (k : string) : option json :=
  match v with
  | Some (JObject fields) => own_property k fields
  | _ => None
  end.

Definition typeof (v : option json) : string :=
  match v with
  | None => "undefined"
  | Some JNull => "object"
  | Some (JBool _) => "boolean"
  | Some (JNumber _) => "number"
  | Some (JString _) => "string"
  | Some (JArray _) => "object"
  | Some (JObject _) => "object"
  end.

Definition Array_isArray (v : option json) : bool :=
  match v with
  | Some (JArray _) => true
  | _ => false
  end.

(** [array.every(callback)], the callback possibly throwing. *)
Fixpoint every (callback : json -> completion bool) (items : list json)
  : completion bool :=
  match items with
  | [] => Normal true
  | x :: rest =>
      ok <- callback x ;; if ok then every callback rest else Normal false
  end.

Definition elements (v : option json) : list json :=
  match v with
  | Some (JArray items) => items
  | _ => []
  end.

(** ** [isValidSong] *)

Definition isValidSong (song : json) : completion bool :=
  (v <- get song "uid" ;; Normal (typeof v =? "string")) &&&
  (v <- get song "uri" ;; Normal (typeof v =? "string")) &&&
  (v <- get song "name" ;; Normal (typeof v =? "string")) &&&
  (d <- get song "duration" ;;
   Normal (typeof (get_opt d "milliseconds") =? "number")) &&&
  (a <- get song "album" ;; Normal (typeof (get_opt a "name") =? "string")) &&&
  (a <- get song "album" ;; Normal (typeof (get_opt a "uri") =? "string")) &&&
  (v <- get song "artists" ;; Normal (Array_isArray v)) &&&
  (v <- get song "artists" ;;
   every (fun artist =>
            (n <- get artist "name" ;; Normal (typeof n =? "string")) &&&
            (u <- get artist "uri" ;; Normal (typeof u =? "string")))
         (elements v)) &&&
  (v <- get song "listenDate" ;; Normal (typeof v =? "number")) &&&
  (v <- get song "images" ;; Normal (Array_isArray v)) &&&
  (v <- get song "images" ;;
   every (fun image =>
            (l <- get image "label" ;; Normal (typeof l =? "string")) &&&
            (u <- get image "url" ;; Normal (typeof u =? "string")))
         (elements v)) &&&
  (v <- get song "metadata" ;; Normal (typeof v =? "object")) &&&
  (v <- get song "metadata" ;;
   Normal (match v with Some JNull => false | _ => true end)).

(** ** The typed view of a validated object ([song is Song]) *)

Definition as_string (v : option json) : option string :=
  match v with
  | Some (JString s) => Some s
  | _ => None
  end.

Definition string_or_empty (v : option string) : string :=
  match v with
  | Some s => s
  | None => ""
  end.

Definition as_number (v : option json) : Q :=
  match v with
  | Some (JNumber q) => q
  | _ => 0
  end.

Definition field (v : json) (k : string) : option json :=
  get_opt (Some v) k.

(** The row that the store keeps for a parsed object, read through the
    properties of the [Song] interface. *)
Definition asSong (song : json) : Song :=
  {| uid := string_or_empty (as_string (field song "uid"));
     uri := string_or_empty (as_string (field song "uri"));
     name := string_or_empty (as_string (field song "name"));
     duration_milliseconds :=
       as_number (get_opt (field song "duration") "milliseconds");
     album :=
       {| album_name := as_string (get_opt (field song "album") "name");
          album_uri := as_string (get_opt (field song "album") "uri") |};
     artists :=
       map (fun a => {| artist_uri := string_or_empty (as_string (field a "uri"));
                        artist_name := string_or_empty (as_string (field a "name")) |})
           (elements (field song "artists"));
     metadata :=
       match field song "metadata" with
       | Some m => m
       | None => JNull
       end;
     images :=
       map (fun i => {| image_url := string_or_empty (as_string (field i "url"));
                        image_label := string_or_empty (as_string (field i "label")) |})
           (elements (field song "images"));
     listenDate := as_number (field song "listenDate") |}.

(** ** Import *)

(** The file chosen by the user, after [file.text()] and [JSON.parse]:
    text that is not JSON makes [JSON.parse] throw. *)
Inductive File : Type :=
| NotJSON
| Document (history : json).

Definition JSON_parse (file : File) : completion json :=
  match file with
  | NotJSON => Throw SyntaxError
  | Document history => Normal history
  end.

Fixpoint characters (s : string) : list json :=
  match s with
  | EmptyString => []
  | String c rest => JString (String c EmptyString) :: characters rest
  end.

(** What [for (const song of history)] runs over: the elements of an
    array, the characters of a string; any other value is not iterable. *)
Definition iterate (history : json) : completion (list json) :=
  match history with
  | JArray items => Normal items
  | JString s => Normal (characters s)
  | _ => Throw TypeError
  end.

(** The loop of [importHistoryAsFile]: the [add] requests placed on the
    transaction, in order, and the exception that ended the loop, if one
    did.  A request placed before the throw stays on the transaction. *)
Fixpoint import_loop (items : list json) : list Song * option exn :=
  match items with
  | [] => ([], None)
  | song :: rest =>
      match isValidSong song with
      | Throw e => ([], Some e)
      | Normal false => ([], Some (Error "Invalid song data in imported file"))
      | Normal true =>
          let (placed, thrown) := import_loop rest in
          (asSong song :: placed, thrown)
      end
  end.

(** The transaction carrying out its requests once the function has
    returned: nothing in the source aborts it, so it commits unless a
    request fails, and a failed request, its error unhandled, aborts it
    with every change undone. *)
Fixpoint run_requests (placed : list Song) (rows : list Song)
  : request (list Song) :=
  match placed with
  | [] => Success rows
  | s :: rest =>
      match add s rows with
      | Success rows' => run_requests rest rows'
      | Failure e => Failure e
      end
  end.

Definition transaction (db : IDBDatabase) (placed : list Song)
  : request (list Song) :=
  match placed, fault db with
  | _ :: _, Some message => Failure (EngineError message)
  | _, _ => run_requests placed (history db)
  end.

(** The error events that reach [transaction.onerror] when a
    transaction fails: the one of the request that failed and, the
    transaction being aborted by it, the [AbortError] of every request
    placed after it. *)
Fixpoint error_events (placed : list Song) (rows : list Song) : nat :=
  match placed with
  | [] => 0
  | s :: rest =>
      match add s rows with
      | Success rows' => error_events rest rows'
      | Failure _ => List.length placed
      end
  end.

Definition transaction_errors (db : IDBDatabase) (placed : list Song) : nat :=
  match fault db with
  | Some _ => List.length placed
  | None => error_events placed (history db)
  end.

Record import_run : Type := mkImportRun {
  import_db : IDBDatabase;
  import_notifications : notifications
}.

(** [importHistoryAsFile(db, file)].  [transaction.oncomplete] and
    [transaction.onerror] are set after the loop, so they exist only when
    the loop did not throw; [onerror] then runs for every error event of
    the transaction. *)
Definition importHistoryAsFile (db : IDBDatabase) (file : option File)
  : import_run :=
  match file with
  | None =>
      {| import_db := db; import_notifications := ["Importing history..."] |}
  | Some f =>
      match (history <- JSON_parse f ;; iterate history) with
      | Throw _ =>
          {| import_db := db;
             import_notifications :=
               ["Importing history..."; "Failed to import history"] |}
      | Normal items =>
          let (placed, thrown) := import_loop items in
          match thrown, transaction db placed with
          | Some _, Success rows =>
              {| import_db := with_history db rows;
                 import_notifications :=
                   ["Importing history..."; "Failed to import history"] |}
          | Some _, Failure _ =>
              {| import_db := db;
                 import_notifications :=
                   ["Importing history..."; "Failed to import history"] |}
          | None, Success rows =>
              {| import_db := with_history db rows;
                 import_notifications :=
                   ["Importing history..."; "History imported"] |}
          | None, Failure _ =>
              {| import_db := db;
                 import_notifications :=
                   "Importing history..."
                   :: repeat "Failed to import history"
                             (transaction_errors db placed) |}
          end
      end
  end.

(** ** The view code of app.tsx *)

(** Lower-casing of ASCII text: the letters A to Z become a to z and
    every other character stays. *)
Definition toLowerCase_char (c : ascii) : ascii :=
  let n := nat_of_ascii c in
  if (Nat.leb 65 n && Nat.leb n 90)%bool then ascii_of_nat (n + 32) else c.

Fixpoint lowerASCII (s : string) : string :=
  match s with
  | EmptyString => EmptyString
  | String c rest => String (toLowerCase_char c) (lowerASCII rest)
  end.

(** Text of ASCII characters only. *)
Fixpoint is_ascii (s : string) : bool :=
  match s with
  | EmptyString => true
  | String c rest => (Nat.ltb (nat_of_ascii c) 128 && is_ascii rest)%bool
  end.

(** [s.includes(q)] *)
Fixpoint includes (s q : string) : bool :=
  if String.prefix q s then true
  else match s with
       | EmptyString => false
       | String _ rest => includes rest q
       end.

Record SortConfig : Type := mkSortConfig {
  key : string;
  ascending : bool
}.

Section Views.

(** [String.prototype.localeCompare], the collation of the host. *)
Variable localeCompare : string -> string -> Q.

(** The compare function that [sortSongs] passes to [sort]. *)
Definition compareSongs (sortConfig : SortConfig) (a b : Song) : Q :=
  if key sortConfig =? "name" then
    localeCompare (name a) (name b)
  else if key sortConfig =? "album" then
    localeCompare (string_or_empty (album_name (album a)))
                  (string_or_empty (album_name (album b)))
  else if key sortConfig =? "date" then
    listenDate a - listenDate b
  else if key sortConfig =? "duration" then
    duration_milliseconds a - duration_milliseconds b
  else 0.

Definition sortSongs (songs : list Song) (sortConfig : SortConfig) : list Song :=
  let sortedSongs := Array_sort (compareSongs sortConfig) songs in
  if negb (ascending sortConfig) then rev sortedSongs else sortedSongs.

End Views.

Section Search.

(** [String.prototype.toLowerCase], the case mapping of the host. *)
Variable toLowerCase : string -> string.

(** The filter that [handleSearchChange] applies to [songs] for the text
    of the search box. *)
Definition handleSearchChange (songs : list Song) (value : string) : list Song :=
  let query := toLowerCase value in
  filter
    (fun song =>
       includes (toLowerCase (name song)) query
       || match album_name (album song) with
          | Some n => includes (toLowerCase n) query
          | None => false
          end
       || existsb (fun artist => includes (toLowerCase (artist_name artist)) query)
                  (artists song))%bool
    songs.

End Search.

(** ** extension.tsx: the "songchange" listener

    The listener awaits [saveSongToDB] and catches its rejection, so the
    plays of a session reach the store one after the other. *)
Definition songchange (db : IDBDatabase) (currentSong : Song) : IDBDatabase :=
  snd (saveSongToDB db currentSong).

Definition session (db : IDBDatabase) (plays : list Song) : IDBDatabase :=
  fold_left songchange plays db.

(** ** extension.tsx: from the player to the record

    [Spicetify.Player.data?.item], with the parts that the listener
    guards by [?.]: the album, the artists and the images may be
    missing. *)
Record PlayerItem : Type := mkPlayerItem {
  item_type : string;
  item_uid : string;
  item_uri : string;
  item_name : string;
  item_duration : Q;
  item_album : option Album;
  item_artists : option (list Artist);
  item_images : option (list Image);
  item_metadata : json
}.

(** The [currentSong] that the listener builds; [now] is
    [new Date().getTime()]. *)
Definition currentSong_of (song : PlayerItem) (now : Q) : Song :=
  {| uid := item_uid song;
     uri := item_uri song;
     name := item_name song;
     duration_milliseconds := item_duration song;
     album :=
       {| album_name := match item_album song with
                        | Some a => album_name a
                        | None => None
                        end;
          album_uri := match item_album song with
                       | Some a => album_uri a
                       | None => None
                       end |};
     artists :=
       match item_artists song with
       | Some l => map (fun artist => {| artist_uri := artist_uri artist;
                                         artist_name := artist_name artist |}) l
       | None => []
       end;
     metadata := item_metadata song;
     images :=
       match item_images song with
       | Some l => map (fun image => {| image_url := image_url image;
                                        image_label := image_label image |}) l
       | None => []
       end;
     listenDate := now |}.

(** One "songchange" event: only an item of type "track" is saved. *)
Definition onSongChange (db : IDBDatabase) (item : option PlayerItem) (now : Q)
  : IDBDatabase :=
  match item with
  | Some song =>
      if item_type song =? "track"
      then songchange db (currentSong_of song now)
      else db
  | None => db
  end.

(** The events of a session, each with the time at which it fires. *)
Definition listen (db : IDBDatabase) (events : list (option PlayerItem * Q))
  : IDBDatabase :=
  fold_left (fun d e => onSongChange d (fst e) (snd e)) events db.

(** ** app.tsx: the component *)

(** [openDB()]: the connection, unless the engine refuses it. *)
Definition openDB (db : IDBDatabase) : settled IDBDatabase :=
  match fault db with
  | Some message => Rejected (EngineError message)
  | None => Resolved db
  end.

(** The updater that [sortByColumn(key)] passes to [setSortConfig]. *)
Definition sortByColumn (k : string) (prevSortConfig : SortConfig) : SortConfig :=
  {| key := k;
     ascending := if key prevSortConfig =? k
                  then negb (ascending prevSortConfig)
                  else true |}.

(** Decimal numeral of a whole number, as a template literal prints
    it. *)
Definition Number_toString (n : N) : string :=
  NilEmpty.string_of_uint (N.to_uint n).

(** [formatDuration(ms)] for a whole number of milliseconds.
    [toFixed(0)] rounds to the nearest whole number, a half upwards;
    the quotient of a whole number below 60000 by 1000 is a half only
    when it is one exactly, so the rounding is that of the exact
    quotient. *)
Definition formatDuration (ms : N) : string :=
  let minutes := (ms / 60000)%N in
  let seconds := ((ms mod 60000 + 500) / 1000)%N in
  (Number_toString minutes ++ ":"
   ++ (if (seconds <? 10)%N then "0" else "") ++ Number_toString seconds)%string.

(** The title cell of a row:
    [song.name.length > 50 ? song.name.substring(0, 50) + "..." : song.name]. *)
Definition songNameCell (title : string) : string :=
  if Nat.ltb 50 (String.length title)
  then (String.substring 0 50 title ++ "...")%string
  else title.

(** The state of the component: whether [db] is set, [songs],
    [filteredSongs], [searchQuery] and [sortConfig]. *)
Record AppState : Type := mkAppState {
  app_db : bool;
  app_songs : list Song;
  app_filteredSongs : list Song;
  app_searchQuery : string;
  app_sortConfig : SortConfig
}.

Section Component.

Variable localeCompare : string -> string -> Q.
Variable toLowerCase : string -> string.

(** [fetchHistory()]: a failure is logged and the state stays. *)
Definition fetchHistory (world : IDBDatabase) (app : AppState) : AppState :=
  match openDB world with
  | Rejected _ => app
  | Resolved database =>
      match getHistoryFromDB database with
      | Rejected _ => app
      | Resolved songsFromDB =>
          let sortedSongs :=
            sortSongs localeCompare songsFromDB (app_sortConfig app) in
          {| app_db := true;
             app_songs := sortedSongs;
             app_filteredSongs := sortedSongs;
             app_searchQuery := app_searchQuery app;
             app_sortConfig := app_sortConfig app |}
      end
  end.

(** [handleDeleteSong(songUid)]: the store and the state afterwards. *)
Definition handleDeleteSong (world : IDBDatabase) (app : AppState) (songUid : string)
  : IDBDatabase * AppState :=
  if app_db app then
    let run := deleteSongFromDB world songUid in
    match delete_settled run with
    | Resolved _ => (delete_db run, fetchHistory (delete_db run) app)
    | Rejected _ => (delete_db run, app)
    end
  else (world, app).

(** [handleClearHistory()] *)
Definition handleClearHistory (world : IDBDatabase) (app : AppState)
  : IDBDatabase * AppState :=
  if app_db app then
    let run := clearHistoryFromDB world in
    match delete_settled run with
    | Resolved _ => (delete_db run, fetchHistory (delete_db run) app)
    | Rejected _ => (delete_db run, app)
    end
  else (world, app).

(** The search box: [setSearchQuery(query)], and [setFilteredSongs] once
    the debounce has run. *)
Definition searchChanged (app : AppState) (value : string) : AppState :=
  {| app_db := app_db app;
     app_songs := app_songs app;
     app_filteredSongs := handleSearchChange toLowerCase (app_songs app) value;
     app_searchQuery := toLowerCase value;
     app_sortConfig := app_sortConfig app |}.

End Component.

(** ** The writers of the store

    Every call of the program that writes to "history": the save of the
    listener, and the delete, clear and import of the component. *)
Inductive operation : Type :=
| Save (song : Song)
| Delete (k : string)
| Clear
| Import (file : option File).

Definition perform (db : IDBDatabase) (op : operation) : IDBDatabase :=
  match op with
  | Save song => songchange db song
  | Delete k => delete_db (deleteSongFromDB db k)
  | Clear => delete_db (clearHistoryFromDB db)
  | Import file => import_db (importHistoryAsFile db file)
  end.

Definition perform_all (db : IDBDatabase) (ops : list operation) : IDBDatabase :=
  fold_left perform ops db.

(** * Properties *)

(** Key order of the object store. *)
Definition uid_lt (a b : Song) : Prop :=
  String.compare (uid a) (uid b) = Lt.

(** The states of the object store: rows in strictly increasing key
    order, and no uri on two rows (the unique index of [openDB]). *)
Definition store_ok (rows : list Song) : Prop :=
  StronglySorted uid_lt rows /\ NoDup (map uri rows).

(** ** Sort keys *)

(** The compare function [(a, b) => number(a) - number(b)] and the order
    it sorts into. *)
Definition by_number {A : Type} (number : A -> Q) (a b : A) : Q :=
  number a - number b.

Definition ordered_by {A : Type} (number : A -> Q) (a b : A) : Prop :=
  number a <= number b.

(** The value by which a compare function of [sortSongs] orders a row. *)
Inductive sort_value : Type :=
| Text (s : string)
| Number (q : Q)
| Unordered.

Definition sort_value_of (k : string) (s : Song) : sort_value :=
  if k =? "name" then Text (name s)
  else if k =? "album" then Text (string_or_empty (album_name (album s)))
  else if k =? "date" then Number (listenDate s)
  else if k =? "duration" then Number (duration_milliseconds s)
  else Unordered.

Definition same_sort_value (v w : sort_value) : bool :=
  match v, w with
  | Text s, Text t => s =? t
  | Number p, Number q => Qeq_bool p q
  | Unordered, Unordered => true
  | _, _ => false
  end.

(** The rows of [songs] whose sort value under [k] is the one of [x], in
    the order of [songs]. *)
Definition ties (k : string) (x : Song) (songs : list Song) : list Song :=
  filter (fun y => same_sort_value (sort_value_of k y) (sort_value_of k x)) songs.

(** ** Search *)

Definition substring_of (q s : string) : Prop :=
  exists pre post : string, s = (pre ++ q ++ post)%string.

(** [q] occurs in [s] once both are lower-cased by [toLowerCase]. *)
Definition occurs_lowered (toLowerCase : string -> string) (q s : string) : Prop :=
  substring_of (toLowerCase q) (toLowerCase s).

(** The letters of the alphabet, capital and small. *)
Definition alphabet : list (ascii * ascii) :=
  combine (list_ascii_of_string "ABCDEFGHIJKLMNOPQRSTUVWXYZ")
          (list_ascii_of_string "abcdefghijklmnopqrstuvwxyz").

Definition letter_pair (capital small : ascii) : bool :=
  existsb (fun p => (fst p =? capital)%char && (snd p =? small)%char)%bool alphabet.

(** The same character, or the capital and the small form of one
    letter. *)
Definition same_letter (c d : ascii) : Prop :=
  c = d \/ letter_pair c d = true \/ letter_pair d c = true.

Fixpoint same_letters (s t : string) : Prop :=
  match s, t with
  | EmptyString, EmptyString => True
  | String c s', String d t' => same_letter c d /\ same_letters s' t'
  | _, _ => False
  end.

(** [q] occurs in [s] when the case of letters is ignored: some part of
    [s] reads as [q] up to the case of its letters. *)
Definition occurs_ignoring_case (q s : string) : Prop :=
  exists pre mid post : string,
    s = (pre ++ mid ++ post)%string /\ same_letters mid q.

(** The query occurs in the title, in the album name or in the name of
    an artist. *)
Definition song_matches (occurs : string -> string -> Prop) (q : string) (s : Song)
  : Prop :=
  occurs q (name s)
  \/ (exists n, album_name (album s) = Some n /\ occurs q n)
  \/ (exists a, In a (artists s) /\ occurs q (artist_name a)).

(** A row whose title, album name and artist names are ASCII text. *)
Definition song_is_ascii (s : Song) : bool :=
  (is_ascii (name s)
   && match album_name (album s) with
      | Some n => is_ascii n
      | None => true
      end
   && forallb (fun a => is_ascii (artist_name a)) (artists s))%bool.

(** ** The import policy in the words of the specification

    Conflicting rows are skipped, not overwritten, and every record of
    the document gets a result of its own. *)
Inductive record_result : Type :=
| Imported
| SkippedConflict.

Fixpoint import_skipping_conflicts (records : list Song) (rows : list Song)
  : list Song * list record_result :=
  match records with
  | [] => (rows, [])
  | s :: rest =>
      if uri_exists (uri s) rows then
        let (rows', results) := import_skipping_conflicts rest rows in
        (rows', SkippedConflict :: results)
      else
        let (rows', results) := import_skipping_conflicts rest (store_record s rows) in
        (rows', Imported :: results)
  end.

(** A parsed object without one of its properties. *)
Definition without (k : string) (v : json) : json :=
  match v with
  | JObject fields => JObject (filter (fun kv => negb (fst kv =? k)) fields)
  | other => other
  end.

(** ** Rows typed as the [Song] interface says

    The album has its name and its uri, and the metadata is an object. *)
Definition interface_typed (s : Song) : Prop :=
  (exists n u, album s = {| album_name := Some n; album_uri := Some u |})
  /\ typeof (Some (metadata s)) = "object"
  /\ metadata s <> JNull.

(** ** Order of the exported file

    Older [listenDate] first, and for one [listenDate] the smaller key
    first. *)
Definition export_order (a b : Song) : Prop :=
  listenDate a < listenDate b
  \/ (listenDate a == listenDate b /\ uid_lt a b).

(** The records that the events of a session give to [saveSongToDB]. *)
Definition played (events : list (option PlayerItem * Q)) : list Song :=
  flat_map (fun e =>
              match fst e with
              | Some song =>
                  if item_type song =? "track"
                  then [currentSong_of song (snd e)]
                  else []
              | None => []
              end)
           events.

(** ** Sample rows *)

Module Sample.

Definition queen : Artist :=
  {| artist_uri := "spotify:artist:queen"; artist_name := "Queen" |}.

Definition opera : Album :=
  {| album_name := Some "A Night at the Opera";
     album_uri := Some "spotify:album:opera" |}.

Definition track (k u title : string) (ms t : Q) : Song :=
  {| uid := k; uri := u; name := title; duration_milliseconds := ms;
     album := opera; artists := [queen]; metadata := JObject [];
     images := []; listenDate := t |}.

Definition rhapsody : Song :=
  track "k1" "spotify:track:rhapsody" "Bohemian Rhapsody" 354000 1000.

(** The same track played again later, under another queue id. *)
Definition rhapsody_again : Song :=
  track "k7" "spotify:track:rhapsody" "Bohemian Rhapsody" 354000 2000.

Definition love : Song :=
  track "k2" "spotify:track:love" "Love of My Life" 219000 1500.

(** Another track that arrives under the key of [rhapsody]. *)
Definition clash : Song :=
  track "k1" "spotify:track:clash" "Seaside Rendezvous" 135000 3000.

(** A track of a negative duration that is not a whole number. *)
Definition odd : Song :=
  track "k9" "spotify:track:odd" "Odd" (-3 # 2) 1000.

(** [love] with its duration left out. *)
Definition love_without_duration : json :=
  without "duration" (Song_toJSON love).

(** A document whose second record is malformed. *)
Definition malformed_document : File :=
  Document (JArray [Song_toJSON rhapsody; love_without_duration]).

(** A document whose first record has the uri of [rhapsody]. *)
Definition merge_records : list Song := [rhapsody_again; love].

Definition merge_document : File :=
  Document (JArray (map Song_toJSON merge_records)).

(** What the player reports for [rhapsody], and for a podcast episode. *)
Definition rhapsody_item : PlayerItem :=
  {| item_type := "track"; item_uid := "k1";
     item_uri := "spotify:track:rhapsody"; item_name := "Bohemian Rhapsody";
     item_duration := 354000; item_album := Some opera;
     item_artists := Some [queen]; item_images := None;
     item_metadata := JObject [] |}.

Definition episode_item : PlayerItem :=
  {| item_type := "episode"; item_uid := "k3";
     item_uri := "spotify:episode:talk"; item_name := "Talk";
     item_duration := 1800000; item_album := None;
     item_artists := None; item_images := None;
     item_metadata := JObject [] |}.

(** A component that has fetched the history once. *)
Definition ready : AppState :=
  {| app_db := true; app_songs := []; app_filteredSongs := [];
     app_searchQuery := "";
     app_sortConfig := {| key := "date"; ascending := false |} |}.

(** [String.prototype.localeCompare] of a host that collates by code
    unit. *)
Definition codeUnitCompare (a b : string) : Q :=
  match String.compare a b with
  | Lt => -1
  | Eq => 0
  | Gt => 1
  end.

End Sample.

(** ** Strings as keys *)

Lemma compare_refl (a : string) : String.compare a a = Eq.
Proof. now apply String_as_OT.cmp_eq. Qed.

Lemma compare_Eq_eq (a b : string) : String.compare a b = Eq -> a = b.
Proof. apply String_as_OT.cmp_eq. Qed.

Lemma compare_Lt_trans (a b c : string) :
  String.compare a b = Lt -> String.compare b c = Lt -> String.compare a c = Lt.
Proof.
  intros Hab Hbc.
  apply String_as_OT.cmp_lt in Hab. apply String_as_OT.cmp_lt in Hbc.
  apply String_as_OT.cmp_lt. eapply String_as_OT.lt_trans; eassumption.
Qed.

Lemma compare_Gt_Lt (a b : string) :
  String.compare a b = Gt -> String.compare b a = Lt.
Proof.
  intros H. rewrite String.compare_antisym, H. reflexivity.
Qed.

Lemma compare_Lt_Gt (a b : string) :
  String.compare a b = Lt -> String.compare b a = Gt.
Proof.
  intros H. rewrite String.compare_antisym, H. reflexivity.
Qed.

Lemma uid_lt_irrefl (a : Song) : ~ uid_lt a a.
Proof. unfold uid_lt. rewrite compare_refl. discriminate. Qed.

(** ** The object store *)

Section StoreFacts.

Lemma key_exists_In (k : string) (rows : list Song) :
  key_exists k rows = true <-> In k (map uid rows).
Proof.
  unfold key_exists. rewrite existsb_exists, in_map_iff.
  split; intros [x [H1 H2]].
  - exists x. apply String.eqb_eq in H2. auto.
  - exists x. split; [assumption | now apply String.eqb_eq].
Qed.

Lemma uri_exists_In (u : string) (rows : list Song) :
  uri_exists u rows = true <-> In u (map uri rows).
Proof.
  unfold uri_exists. rewrite existsb_exists, in_map_iff.
  split; intros [x [H1 H2]].
  - exists x. apply String.eqb_eq in H2. auto.
  - exists x. split; [assumption | now apply String.eqb_eq].
Qed.

Lemma index_get_Some (u : string) (rows : list Song) (s : Song) :
  index_get u rows = Some s -> In s rows /\ uri s = u.
Proof.
  unfold index_get. intros H. apply find_some in H as [H1 H2].
  apply String.eqb_eq in H2. auto.
Qed.

Lemma index_get_None (u : string) (rows : list Song) :
  index_get u rows = None <-> ~ In u (map uri rows).
Proof.
  unfold index_get. split.
  - intros H Hin. apply in_map_iff in Hin as [x [Hx Hin]].
    apply (find_none _ _ H) in Hin. apply String.eqb_neq in Hin. auto.
  - intros H. destruct (find _ rows) as [s|] eqn:E; [|reflexivity].
    apply find_some in E as [E1 E2]. apply String.eqb_eq in E2.
    exfalso. apply H. apply in_map_iff. eauto.
Qed.

Lemma In_store_record (r y : Song) (rows : list Song) :
  In y (store_record r rows) -> y = r \/ In y rows.
Proof.
  induction rows as [|x rest IH]; simpl.
  - intuition.
  - destruct (String.compare (uid r) (uid x)); simpl; intuition.
Qed.

Lemma store_record_sorted (r : Song) (rows : list Song) :
  StronglySorted uid_lt rows -> StronglySorted uid_lt (store_record r rows).
Proof.
  induction 1 as [|x rest Hs IH Hall]; simpl.
  - repeat constructor.
  - destruct (String.compare (uid r) (uid x)) eqn:E.
    + apply compare_Eq_eq in E. constructor; [assumption|].
      eapply Forall_impl; [|exact Hall]. unfold uid_lt. now rewrite E.
    + constructor; [now constructor|]. constructor; [exact E|].
      eapply Forall_impl; [|exact Hall].
      intros y Hy. eapply compare_Lt_trans; eassumption.
    + constructor; [assumption|]. apply Forall_forall. intros y Hy.
      apply In_store_record in Hy as [->|Hy].
      * now apply compare_Gt_Lt.
      * rewrite Forall_forall in Hall. auto.
Qed.

(** A record of a new key is one more row. *)
Lemma store_record_fresh (r : Song) (rows : list Song) :
  key_exists (uid r) rows = false ->
  Permutation (r :: rows) (store_record r rows).
Proof.
  induction rows as [|x rest IH]; simpl; intros H.
  - reflexivity.
  - apply orb_false_iff in H as [Hx Hrest].
    destruct (String.compare (uid r) (uid x)) eqn:E.
    + apply compare_Eq_eq in E. rewrite E, String.eqb_refl in Hx. discriminate.
    + reflexivity.
    + rewrite perm_swap. constructor. auto.
Qed.

Lemma sorted_NoDup_uid (rows : list Song) :
  StronglySorted uid_lt rows -> NoDup (map uid rows).
Proof.
  induction 1 as [|x rest Hs IH Hall]; simpl; constructor; [|assumption].
  intros Hin. apply in_map_iff in Hin as [y [Hy Hin]].
  rewrite Forall_forall in Hall. specialize (Hall y Hin).
  unfold uid_lt in Hall. rewrite Hy, compare_refl in Hall. discriminate.
Qed.

Lemma NoDup_map_inj {A B : Type} (f : A -> B) (l : list A) (a b : A) :
  NoDup (map f l) -> In a l -> In b l -> f a = f b -> a = b.
Proof.
  induction l as [|x rest IH]; simpl; [tauto|].
  intros Hnd Ha Hb Hf. inversion Hnd as [|? ? Hx Hrest]; subst.
  destruct Ha as [->|Ha], Hb as [->|Hb]; auto.
  - exfalso. apply Hx. rewrite Hf. now apply in_map.
  - exfalso. apply Hx. rewrite <- Hf. now apply in_map.
Qed.

(** Writing back the row found under a uri, with a new [listenDate],
    changes that row in place and no other. *)
Lemma store_record_found (u : string) (t : Q) (rows : list Song) (s : Song) :
  store_ok rows -> index_get u rows = Some s ->
  store_record (set_listenDate s t) rows
  = map (fun x => if uri x =? u then set_listenDate x t else x) rows.
Proof.
  intros [Hs Hnd]. revert Hnd. unfold index_get.
  induction Hs as [|x rest Hs IH Hall]; simpl; [discriminate|].
  intros Hnd Hfind. inversion Hnd as [|? ? Hx Hrest]; subst.
  destruct (uri x =? u) eqn:E.
  - injection Hfind as <-. simpl. rewrite compare_refl. f_equal.
    apply String.eqb_eq in E.
    transitivity (map (fun y : Song => y) rest); [now rewrite map_id|].
    apply map_ext_in. intros y Hy.
    destruct (uri y =? u) eqn:E'; [|reflexivity].
    apply String.eqb_eq in E'. exfalso. apply Hx.
    rewrite E, <- E'. now apply in_map.
  - pose proof (find_some _ _ Hfind) as [Hin _].
    rewrite Forall_forall in Hall. specialize (Hall s Hin).
    simpl. rewrite (compare_Lt_Gt _ _ Hall). f_equal. auto.
Qed.

Lemma put_found (u : string) (t : Q) (rows : list Song) (s : Song) :
  store_ok rows -> index_get u rows = Some s ->
  put (set_listenDate s t) rows
  = Success (map (fun x => if uri x =? u then set_listenDate x t else x) rows).
Proof.
  intros Hok Hget. unfold put.
  destruct (existsb _ rows) eqn:E.
  - exfalso. apply existsb_exists in E as [x [Hx E]].
    apply andb_true_iff in E as [E1 E2]. apply String.eqb_eq in E1.
    apply index_get_Some in Hget as [Hs Hu]. simpl in E1, E2.
    assert (x = s) by (eapply NoDup_map_inj; [apply Hok| | |]; assumption).
    subst x. rewrite String.eqb_refl in E2. discriminate.
  - now rewrite (store_record_found u t rows s Hok Hget).
Qed.

Lemma store_ok_touch (u : string) (t : Q) (rows : list Song) :
  store_ok rows ->
  store_ok (map (fun x => if uri x =? u then set_listenDate x t else x) rows).
Proof.
  intros [Hs Hnd]. split.
  - clear Hnd. induction Hs as [|x rest Hs IH Hall]; simpl; constructor.
    + assumption.
    + apply Forall_forall. intros y Hy. apply in_map_iff in Hy as [z [<- Hz]].
      rewrite Forall_forall in Hall. specialize (Hall z Hz). unfold uid_lt in *.
      destruct (uri x =? u), (uri z =? u); assumption.
  - rewrite map_map. erewrite map_ext; [exact Hnd|].
    intros x. simpl. now destruct (uri x =? u).
Qed.

Lemma add_ok (r : Song) (rows rows' : list Song) :
  store_ok rows -> add r rows = Success rows' ->
  store_ok rows' /\ Permutation (r :: rows) rows'.
Proof.
  intros [Hs Hnd]. unfold add.
  destruct (key_exists (uid r) rows) eqn:Ek; [discriminate|].
  destruct (uri_exists (uri r) rows) eqn:Eu; [discriminate|].
  intros H. injection H as <-.
  pose proof (store_record_fresh r rows Ek) as Hperm.
  split; [split|]; [now apply store_record_sorted | | assumption].
  eapply Permutation_NoDup; [apply Permutation_map; exact Hperm|].
  simpl. constructor; [|assumption].
  intros Hin. apply uri_exists_In in Hin. congruence.
Qed.

(** [saveSongToDB] keeps the store a store. *)
Lemma saveSongToDB_store_ok (db : IDBDatabase) (song : Song) :
  store_ok (history db) -> store_ok (history (snd (saveSongToDB db song))).
Proof.
  intros Hok. unfold saveSongToDB.
  destruct (fault db); [assumption|].
  destruct (index_get (uri song) (history db)) as [found|] eqn:Eget.
  - rewrite (put_found _ _ _ _ Hok Eget). simpl. now apply store_ok_touch.
  - destruct (add song (history db)) as [rows|e] eqn:Ea; simpl; [|assumption].
    now destruct (add_ok _ _ _ Hok Ea).
Qed.

Lemma session_store_ok (plays : list Song) (db : IDBDatabase) :
  store_ok (history db) -> store_ok (history (session db plays)).
Proof.
  unfold session. revert db.
  induction plays as [|s rest IH]; simpl; intros db Hok; [assumption|].
  apply IH. now apply saveSongToDB_store_ok.
Qed.

End StoreFacts.

(** ** Upsert *)

Lemma Permutation_filter {A : Type} (f : A -> bool) (l l' : list A) :
  Permutation l l' -> Permutation (filter f l) (filter f l').
Proof.
  induction 1 as [|x l l' H IH|x y l|l l' l'' H1 IH1 H2 IH2]; simpl.
  - constructor.
  - destruct (f x); [now constructor | assumption].
  - destruct (f x), (f y); try reflexivity. apply perm_swap.
  - now transitivity (filter f l').
Qed.

Lemma touch_absent (u : string) (t : Q) (rows : list Song) :
  ~ In u (map uri rows) ->
  map (fun x => if uri x =? u then set_listenDate x t else x) rows = rows.
Proof.
  intros H. transitivity (map (fun y : Song => y) rows); [|now rewrite map_id].
  apply map_ext_in. intros y Hy. destruct (uri y =? u) eqn:E; [|reflexivity].
  apply String.eqb_eq in E. exfalso. apply H. rewrite <- E. now apply in_map.
Qed.

Lemma filter_absent (u : string) (rows : list Song) :
  ~ In u (map uri rows) -> filter (fun x => uri x =? u) rows = [].
Proof.
  intros H. induction rows as [|x rest IH]; simpl; [reflexivity|].
  destruct (uri x =? u) eqn:E.
  - apply String.eqb_eq in E. exfalso. apply H. simpl. auto.
  - apply IH. intros Hin. apply H. simpl. auto.
Qed.

Lemma saveSongToDB_found (rows : list Song) (r : Song) :
  store_ok rows -> In (uri r) (map uri rows) ->
  saveSongToDB (open_db rows) r
  = (Resolved tt,
     open_db (map (fun x => if uri x =? uri r
                            then set_listenDate x (listenDate r) else x) rows)).
Proof.
  intros Hok Hin. unfold saveSongToDB. simpl.
  destruct (index_get (uri r) rows) as [found|] eqn:Eget.
  - now rewrite (put_found _ _ _ _ Hok Eget).
  - apply index_get_None in Eget. contradiction.
Qed.

Lemma saveSongToDB_new (rows : list Song) (r : Song) :
  store_ok rows -> ~ In (uri r) (map uri rows) -> ~ In (uid r) (map uid rows) ->
  saveSongToDB (open_db rows) r = (Resolved tt, open_db (store_record r rows))
  /\ Permutation (r :: rows) (store_record r rows)
  /\ store_ok (store_record r rows).
Proof.
  intros Hok Huri Huid. unfold saveSongToDB. simpl.
  apply index_get_None in Huri. rewrite Huri.
  destruct (add r rows) as [rows'|e] eqn:Ea.
  - destruct (add_ok _ _ _ Hok Ea) as [Hok' Hperm]. revert Ea. unfold add.
    destruct (key_exists (uid r) rows); [discriminate|].
    destruct (uri_exists (uri r) rows); [discriminate|].
    intros H. injection H as <-. auto.
  - exfalso. revert Ea. unfold add.
    destruct (key_exists (uid r) rows) eqn:Ek.
    + apply key_exists_In in Ek. contradiction.
    + destruct (uri_exists (uri r) rows) eqn:Eu; [|discriminate].
      apply uri_exists_In in Eu. apply index_get_None in Huri. contradiction.
Qed.

(** C1 (as amended): on a store with a row of the uri of [r],
    [saveSongToDB] replaces the [listenDate] of that row by the one of
    [r] and changes nothing else, in that row or in any other; with no
    row of that uri and no row of the uid of [r], [r] becomes a new row;
    with no row of that uri but a row of that uid, the call is rejected
    with a constraint error and the store is as before.  Saving [r] as a
    new row and then a record [r2] of the same uri leaves exactly one row
    of that uri: [r] with the [listenDate] of [r2]. *)
Theorem saveSongToDB_upsert (rows : list Song) (r : Song) :
  store_ok rows ->
  (In (uri r) (map uri rows) ->
   saveSongToDB (open_db rows) r
   = (Resolved tt,
      open_db (map (fun x => if uri x =? uri r
                             then set_listenDate x (listenDate r) else x) rows)))
  /\ (~ In (uri r) (map uri rows) -> ~ In (uid r) (map uid rows) ->
      exists rows',
        saveSongToDB (open_db rows) r = (Resolved tt, open_db rows')
        /\ Permutation (r :: rows) rows')
  /\ (~ In (uri r) (map uri rows) -> In (uid r) (map uid rows) ->
      saveSongToDB (open_db rows) r = (Rejected ConstraintError, open_db rows))
  /\ (~ In (uri r) (map uri rows) -> ~ In (uid r) (map uid rows) ->
      forall r2 : Song, uri r2 = uri r ->
        let after := history (session (open_db rows) [r; r2]) in
        filter (fun x => uri x =? uri r) after
        = [set_listenDate r (listenDate r2)]
        /\ Permutation (set_listenDate r (listenDate r2) :: rows) after).
Proof.
  intros Hok. split; [|split; [|split]].
  - now apply saveSongToDB_found.
  - intros Huri Huid. exists (store_record r rows).
    destruct (saveSongToDB_new rows r Hok Huri Huid) as [H1 [H2 _]]. auto.
  - intros Huri Huid. unfold saveSongToDB. simpl.
    apply index_get_None in Huri. rewrite Huri. unfold add.
    apply key_exists_In in Huid. now rewrite Huid.
  - intros Huri Huid r2 Hr2.
    destruct (saveSongToDB_new rows r Hok Huri Huid) as [H1 [Hperm Hok']].
    assert (Hin : In (uri r2) (map uri (store_record r rows))).
    { rewrite Hr2. eapply Permutation_in; [apply Permutation_map; exact Hperm|].
      simpl. auto. }
    unfold session, songchange. simpl. rewrite H1. simpl.
    rewrite (saveSongToDB_found _ r2 Hok' Hin). simpl. rewrite Hr2.
    set (touch := fun x : Song =>
                    if uri x =? uri r then set_listenDate x (listenDate r2) else x).
    assert (Hall : Permutation (set_listenDate r (listenDate r2) :: rows)
                               (map touch (store_record r rows))).
    { transitivity (map touch (r :: rows)); [|now apply Permutation_map].
      simpl. unfold touch at 1. rewrite String.eqb_refl. constructor.
      unfold touch. now rewrite touch_absent. }
    split; [|exact Hall].
    apply Permutation_length_1_inv.
    etransitivity; [|apply Permutation_filter; exact Hall].
    simpl. rewrite String.eqb_refl, filter_absent by assumption. reflexivity.
Qed.

Lemma sample_store_ok : store_ok [Sample.rhapsody; Sample.love].
Proof.
  split.
  - repeat constructor.
  - repeat constructor; simpl; intuition discriminate.
Qed.

Lemma saveSongToDB_upsert_witness :
  store_ok [Sample.rhapsody; Sample.love]
  /\ saveSongToDB (open_db [Sample.rhapsody; Sample.love]) Sample.rhapsody_again
     = (Resolved tt,
        open_db [set_listenDate Sample.rhapsody 2000; Sample.love]).
Proof.
  split; [exact sample_store_ok|].
  refine (proj1 (saveSongToDB_upsert [Sample.rhapsody; Sample.love]
                   Sample.rhapsody_again sample_store_ok) _).
  simpl. auto.
Defined.

(** C1 (as stated) fails: the store holds one row, the incoming record
    has a uri that no row has, and it is not inserted, because its uid is
    the key of the stored row. *)
Lemma saveSongToDB_uid_taken :
  store_ok [Sample.rhapsody]
  /\ ~ In (uri Sample.clash) (map uri [Sample.rhapsody])
  /\ saveSongToDB (open_db [Sample.rhapsody]) Sample.clash
     = (Rejected ConstraintError, open_db [Sample.rhapsody])
  /\ ~ In Sample.clash
          (history (snd (saveSongToDB (open_db [Sample.rhapsody]) Sample.clash))).
Proof.
  split; [|split; [|split]].
  - split; repeat constructor. simpl. tauto.
  - simpl. intros [H|[]]. discriminate.
  - reflexivity.
  - simpl. intros [H|[]]. discriminate.
Qed.

(** C2: after any sequence of plays saved one after the other into the
    empty store, no two rows share a uri and no two rows share a uid. *)
Theorem session_unique (plays : list Song) :
  NoDup (map uri (history (session (open_db []) plays)))
  /\ NoDup (map uid (history (session (open_db []) plays))).
Proof.
  assert (Hok : store_ok (history (session (open_db []) plays))).
  { apply session_store_ok. simpl. split; constructor. }
  destruct Hok as [Hs Hnd]. split; [assumption|]. now apply sorted_NoDup_uid.
Qed.

(** ** Delete *)

Lemma delete_absent (k : string) (rows : list Song) :
  ~ In k (map uid rows) -> delete k rows = rows.
Proof.
  unfold delete. induction rows as [|x rest IH]; simpl; intros H; [reflexivity|].
  destruct (uid x =? k) eqn:E; simpl.
  - apply String.eqb_eq in E. tauto.
  - f_equal. tauto.
Qed.

Lemma delete_gone (k : string) (rows : list Song) :
  ~ In k (map uid (delete k rows)).
Proof.
  unfold delete. intros H. apply in_map_iff in H as [x [Hx H]].
  apply filter_In in H as [_ H]. rewrite Hx, String.eqb_refl in H. discriminate.
Qed.

(** C7: on a working store [deleteSongFromDB] resolves and announces
    "Song deleted" whether or not a row has the key; when no row has it
    the store is left as it was; so of two deletions of one key in a row
    the second resolves too and changes nothing. *)
Theorem deleteSongFromDB_idempotent (rows : list Song) (k : string) :
  let first := deleteSongFromDB (open_db rows) k in
  let second := deleteSongFromDB (delete_db first) k in
  delete_settled first = Resolved tt
  /\ delete_notifications first = ["Deleting song..."; "Song deleted"]
  /\ (~ In k (map uid rows) -> delete_db first = open_db rows)
  /\ delete_settled second = Resolved tt
  /\ delete_notifications second = ["Deleting song..."; "Song deleted"]
  /\ delete_db second = delete_db first.
Proof.
  simpl. unfold with_history, open_db. simpl. repeat split.
  - intros H. now rewrite delete_absent.
  - f_equal. apply delete_absent. apply delete_gone.
Qed.

Lemma deleteSongFromDB_idempotent_witness :
  ~ In "k5" (map uid [Sample.rhapsody; Sample.love])
  /\ delete_db (deleteSongFromDB (open_db [Sample.rhapsody; Sample.love]) "k5")
     = open_db [Sample.rhapsody; Sample.love].
Proof.
  assert (H : ~ In "k5" (map uid [Sample.rhapsody; Sample.love])).
  { simpl. intros [H|[H|[]]]; discriminate. }
  split; [exact H|].
  exact (proj1 (proj2 (proj2
           (deleteSongFromDB_idempotent [Sample.rhapsody; Sample.love] "k5"))) H).
Defined.

(** ** Sorting *)

Section SortFacts.
Context {A : Type}.
Variable compareFn : A -> A -> Q.

Lemma sort_insert_Permutation (x : A) (l : list A) :
  Permutation (x :: l) (sort_insert compareFn x l).
Proof.
  induction l as [|y rest IH]; simpl; [reflexivity|].
  destruct (Qle_bool (compareFn x y) 0); [reflexivity|].
  rewrite perm_swap. now constructor.
Qed.

Lemma Array_sort_Permutation (l : list A) :
  Permutation l (Array_sort compareFn l).
Proof.
  induction l as [|x rest IH]; simpl; [constructor|].
  rewrite <- sort_insert_Permutation. now constructor.
Qed.

(** Stability: elements that never compare above one another come out
    in the order in which they went in. *)
Section Stable.
Variable same : A -> bool.
Hypothesis same_not_above :
  forall x y, same x = true -> same y = true -> compareFn x y <= 0.

Lemma sort_insert_filter (x : A) (l : list A) :
  filter same (sort_insert compareFn x l)
  = if same x then x :: filter same l else filter same l.
Proof.
  induction l as [|y rest IH]; simpl; [reflexivity|].
  destruct (Qle_bool (compareFn x y) 0) eqn:E; simpl; [reflexivity|].
  rewrite IH. destruct (same x) eqn:Ex, (same y) eqn:Ey; try reflexivity.
  apply (same_not_above x y Ex) in Ey. apply Qle_bool_iff in Ey. congruence.
Qed.

Lemma Array_sort_filter (l : list A) :
  filter same (Array_sort compareFn l) = filter same l.
Proof.
  induction l as [|x rest IH]; simpl; [reflexivity|].
  rewrite sort_insert_filter, IH. reflexivity.
Qed.
End Stable.

End SortFacts.

Section SortByNumber.
Context {A : Type}.
Variable number : A -> Q.

Lemma by_number_le (x y : A) :
  Qle_bool (by_number number x y) 0 = true <-> number x <= number y.
Proof.
  rewrite Qle_bool_iff. unfold by_number. split; intros H.
  - apply Qle_minus_iff. apply Qle_minus_iff in H.
    now setoid_replace (number y + - number x)
      with (0 + - (number x - number y)) by ring.
  - apply Qle_minus_iff. apply Qle_minus_iff in H.
    now setoid_replace (0 + - (number x - number y))
      with (number y + - number x) by ring.
Qed.

Lemma sort_insert_ordered (x : A) (l : list A) :
  StronglySorted (ordered_by number) l ->
  StronglySorted (ordered_by number) (sort_insert (by_number number) x l).
Proof.
  induction 1 as [|y rest Hs IH Hall]; simpl.
  - repeat constructor.
  - destruct (Qle_bool (by_number number x y) 0) eqn:E.
    + apply by_number_le in E.
      constructor; [now constructor|]. constructor; [exact E|].
      eapply Forall_impl; [|exact Hall].
      intros z Hz. unfold ordered_by in *. eapply Qle_trans; eassumption.
    + assert (Hyx : ordered_by number y x).
      { unfold ordered_by. apply Qlt_le_weak. apply Qnot_le_lt. intros Hle.
        apply by_number_le in Hle. congruence. }
      constructor; [assumption|]. apply Forall_forall. intros z Hz.
      apply (Permutation_in _
               (Permutation_sym (sort_insert_Permutation (by_number number) x rest)))
        in Hz.
      destruct Hz as [<-|Hz]; [exact Hyx|].
      rewrite Forall_forall in Hall. auto.
Qed.

Lemma Array_sort_ordered (l : list A) :
  StronglySorted (ordered_by number) (Array_sort (by_number number) l).
Proof.
  induction l as [|x rest IH]; simpl; [constructor|].
  now apply sort_insert_ordered.
Qed.
End SortByNumber.

(** ** Export *)

(** C5: the export of a store that is not empty is a file holding the
    JSON array of all the rows, each once, oldest [listenDate] first.
    The function takes no sort configuration: the order chosen in the
    view has no part in it. *)
Theorem exportHistoryAsFile_sorted (rows : list Song) :
  rows <> [] ->
  exists sorted : list Song,
    exportHistoryAsFile (open_db rows)
    = {| export_settled := Resolved tt;
         export_notifications := ["Exporting history..."; "History exported"];
         export_download :=
           Some ("spicetify-history-download", JArray (map Song_toJSON sorted)) |}
    /\ Permutation rows sorted
    /\ StronglySorted (fun a b => listenDate a <= listenDate b) sorted.
Proof.
  intros Hne.
  exists (Array_sort (fun a b => listenDate a - listenDate b) rows).
  split; [|split].
  - unfold exportHistoryAsFile. simpl.
    destruct rows as [|x rest]; [contradiction|reflexivity].
  - apply Array_sort_Permutation.
  - apply (Array_sort_ordered listenDate).
Qed.

Lemma exportHistoryAsFile_sorted_witness :
  [Sample.rhapsody; Sample.love] <> []
  /\ exists sorted : list Song,
       exportHistoryAsFile (open_db [Sample.rhapsody; Sample.love])
       = {| export_settled := Resolved tt;
            export_notifications := ["Exporting history..."; "History exported"];
            export_download :=
              Some ("spicetify-history-download", JArray (map Song_toJSON sorted)) |}
       /\ Permutation [Sample.rhapsody; Sample.love] sorted
       /\ StronglySorted (fun a b => listenDate a <= listenDate b) sorted.
Proof.
  split; [discriminate|].
  apply (exportHistoryAsFile_sorted [Sample.rhapsody; Sample.love]). discriminate.
Defined.

(** C6 (as amended): the export of the empty store hands no file to the
    browser and shows "No history to export", a notification that no
    other run of the export shows; the promise resolves with no value, as
    it does on every run of the export. *)
Theorem exportHistoryAsFile_empty :
  export_download (exportHistoryAsFile (open_db [])) = None
  /\ export_notifications (exportHistoryAsFile (open_db []))
     = ["Exporting history..."; "No history to export"]
  /\ (forall db : IDBDatabase,
        export_notifications (exportHistoryAsFile db)
        = ["Exporting history..."; "No history to export"]
        <-> fault db = None /\ history db = [])
  /\ (forall db : IDBDatabase,
        export_settled (exportHistoryAsFile db) = Resolved tt).
Proof.
  split; [reflexivity|]. split; [reflexivity|]. split.
  - intros [f rows]. unfold exportHistoryAsFile, getHistoryFromDB. simpl.
    destruct f as [message|]; simpl.
    + split; [discriminate | intros [H _]; discriminate].
    + destruct rows as [|x rest]; simpl.
      * tauto.
      * split; [discriminate | intros [_ H]; discriminate].
  - intros [f rows]. unfold exportHistoryAsFile, getHistoryFromDB. simpl.
    destruct f as [message|]; simpl; [reflexivity|].
    now destruct rows.
Qed.

(** C6 (as stated) fails: what the export returns for the empty store is
    what it returns after a successful export and after a failure of the
    store, so no result value tells the three apart. *)
Lemma exportHistoryAsFile_empty_same_result :
  export_settled (exportHistoryAsFile (open_db []))
  = export_settled (exportHistoryAsFile (open_db [Sample.rhapsody]))
  /\ export_settled (exportHistoryAsFile (open_db []))
     = export_settled
         (exportHistoryAsFile {| fault := Some "QuotaExceededError"; history := [] |}).
Proof. split; reflexivity. Qed.

(** ** Sort order of the view *)

Section SortSongsFacts.
Variable localeCompare : string -> string -> Q.
Hypothesis localeCompare_same : forall s : string, localeCompare s s == 0.

Lemma same_sort_value_not_above (k : string) (x a b : Song) :
  same_sort_value (sort_value_of k a) (sort_value_of k x) = true ->
  same_sort_value (sort_value_of k b) (sort_value_of k x) = true ->
  compareSongs localeCompare {| key := k; ascending := true |} a b <= 0.
Proof.
  unfold sort_value_of, compareSongs. simpl.
  destruct (k =? "name").
  { simpl. intros Ha Hb. apply String.eqb_eq in Ha, Hb.
    rewrite Ha, Hb, localeCompare_same. apply Qle_refl. }
  destruct (k =? "album").
  { simpl. intros Ha Hb. apply String.eqb_eq in Ha, Hb.
    rewrite Ha, Hb, localeCompare_same. apply Qle_refl. }
  destruct (k =? "date").
  { simpl. intros Ha Hb. apply Qeq_bool_iff in Ha, Hb.
    rewrite Ha, Hb. setoid_replace (listenDate x - listenDate x) with 0 by ring.
    apply Qle_refl. }
  destruct (k =? "duration").
  { simpl. intros Ha Hb. apply Qeq_bool_iff in Ha, Hb.
    rewrite Ha, Hb.
    setoid_replace (duration_milliseconds x - duration_milliseconds x) with 0 by ring.
    apply Qle_refl. }
  intros _ _. apply Qle_refl.
Qed.

Lemma filter_rev {A : Type} (f : A -> bool) (l : list A) :
  filter f (rev l) = rev (filter f l).
Proof.
  induction l as [|x rest IH]; simpl; [reflexivity|].
  rewrite filter_app, IH. simpl. destruct (f x); simpl.
  - reflexivity.
  - now rewrite app_nil_r.
Qed.

(** C8: for every sort key, the descending order of [sortSongs] is the
    ascending order reversed; the rows of one sort value keep their
    order in the ascending result and so come reversed in the
    descending one. *)
Theorem sortSongs_descending (songs : list Song) (k : string) :
  sortSongs localeCompare songs {| key := k; ascending := false |}
  = rev (sortSongs localeCompare songs {| key := k; ascending := true |})
  /\ (forall x : Song,
        ties k x (sortSongs localeCompare songs {| key := k; ascending := true |})
        = ties k x songs)
  /\ (forall x : Song,
        ties k x (sortSongs localeCompare songs {| key := k; ascending := false |})
        = rev (ties k x songs)).
Proof.
  assert (Hasc : forall x : Song,
             ties k x (Array_sort
                         (compareSongs localeCompare {| key := k; ascending := true |})
                         songs)
             = ties k x songs).
  { intros x. unfold ties. apply Array_sort_filter.
    intros a b. apply same_sort_value_not_above. }
  split; [reflexivity|]. split.
  - exact Hasc.
  - intros x. unfold sortSongs. simpl. unfold ties at 1.
    rewrite filter_rev. f_equal. apply Hasc.
Qed.

End SortSongsFacts.

Lemma codeUnitCompare_same (s : string) : Sample.codeUnitCompare s s == 0.
Proof. unfold Sample.codeUnitCompare. rewrite compare_refl. reflexivity. Qed.

Lemma sortSongs_descending_witness :
  (forall s : string, Sample.codeUnitCompare s s == 0)
  /\ map uid
         (sortSongs Sample.codeUnitCompare
                    [Sample.rhapsody; Sample.love; Sample.rhapsody_again]
                    {| key := "duration"; ascending := false |})
     = ["k7"; "k1"; "k2"].
Proof.
  split; [exact codeUnitCompare_same|].
  rewrite (proj1 (sortSongs_descending Sample.codeUnitCompare codeUnitCompare_same
                    [Sample.rhapsody; Sample.love; Sample.rhapsody_again]
                    "duration")).
  reflexivity.
Defined.

(** ** Search *)

Lemma prefix_iff (q s : string) :
  String.prefix q s = true <-> exists post : string, s = (q ++ post)%string.
Proof.
  revert s. induction q as [|c q IH]; intros s.
  - split; [intros _; now exists s | intros _; now destruct s].
  - destruct s as [|d s]; simpl.
    + split; [discriminate | intros [post H]; discriminate].
    + destruct (ascii_dec c d) as [->|Hne].
      * rewrite IH. split; intros [post H]; exists post.
        -- now rewrite H.
        -- now injection H.
      * split; [discriminate|]. intros [post H]. injection H as H1 H2. congruence.
Qed.

Lemma includes_unfold (s q : string) :
  includes s q
  = if String.prefix q s then true
    else match s with
         | EmptyString => false
         | String _ rest => includes rest q
         end.
Proof. now destruct s. Qed.

Lemma includes_iff (s q : string) :
  includes s q = true <-> substring_of q s.
Proof.
  unfold substring_of. induction s as [|c s IH]; rewrite includes_unfold.
  - destruct (String.prefix q "") eqn:E.
    + split; [|reflexivity]. intros _. apply prefix_iff in E as [post E].
      exists "", post. exact E.
    + split; [discriminate|]. intros [pre [post H]].
      destruct pre; [|discriminate]. simpl in H.
      assert (String.prefix q "" = true) by (apply prefix_iff; eauto). congruence.
  - destruct (String.prefix q (String c s)) eqn:E.
    + split; [|reflexivity]. intros _. apply prefix_iff in E as [post E].
      exists "", post. exact E.
    + rewrite IH. split; intros [pre [post H]].
      * exists (String c pre), post. simpl. now rewrite H.
      * destruct pre as [|d pre]; simpl in H.
        -- assert (String.prefix q (String c s) = true) by (apply prefix_iff; eauto).
           congruence.
        -- injection H as _ H. eauto.
Qed.

Lemma includes_empty (s : string) : includes s "" = true.
Proof. destruct s; reflexivity. Qed.

(** *** Letters and their case *)

Lemma toLowerCase_char_cases (d : ascii) :
  toLowerCase_char d = d \/ letter_pair d (toLowerCase_char d) = true.
Proof.
  destruct d as [[] [] [] [] [] [] [] []];
    ((left; reflexivity) || (right; reflexivity)).
Qed.

Lemma letter_pair_small (c x : ascii) :
  letter_pair c x = true ->
  toLowerCase_char c = x /\ toLowerCase_char x = x
  /\ c = ascii_of_nat (nat_of_ascii x - 32).
Proof.
  intros H. unfold letter_pair in H.
  apply existsb_exists in H as [[u l] [Hin H]].
  apply andb_true_iff in H as [H1 H2]. apply Ascii.eqb_eq in H1, H2.
  simpl in H1, H2. subst u l. unfold alphabet in Hin. simpl in Hin.
  repeat (destruct Hin as [Hin|Hin]; [injection Hin as <- <-; repeat split|]).
  contradiction.
Qed.

Lemma toLowerCase_char_same (c d : ascii) :
  toLowerCase_char c = toLowerCase_char d <-> same_letter c d.
Proof.
  unfold same_letter. split.
  - intros H.
    destruct (toLowerCase_char_cases c) as [Hc|Hc],
             (toLowerCase_char_cases d) as [Hd|Hd].
    + left. congruence.
    + right; right. rewrite <- H, Hc in Hd. exact Hd.
    + right; left. rewrite H, Hd in Hc. exact Hc.
    + left. rewrite H in Hc.
      destruct (letter_pair_small _ _ Hc) as [_ [_ E1]].
      destruct (letter_pair_small _ _ Hd) as [_ [_ E2]].
      etransitivity; [exact E1 | symmetry; exact E2].
  - intros [->|[H|H]]; [reflexivity| |];
      destruct (letter_pair_small _ _ H) as [H1 [H2 _]]; congruence.
Qed.

Lemma lowerASCII_same (s t : string) :
  lowerASCII s = lowerASCII t <-> same_letters s t.
Proof.
  revert t. induction s as [|c s IH]; intros [|d t]; simpl; try tauto;
    try (split; [discriminate|tauto]).
  rewrite <- IH, <- toLowerCase_char_same. split.
  - intros H. injection H as H1 H2. auto.
  - intros [H1 H2]. now rewrite H1, H2.
Qed.

Lemma lowerASCII_app (a b : string) :
  lowerASCII (a ++ b) = (lowerASCII a ++ lowerASCII b)%string.
Proof. induction a as [|c a IH]; simpl; [reflexivity|]. now rewrite IH. Qed.

Lemma lowerASCII_split (s x y : string) :
  lowerASCII s = (x ++ y)%string ->
  exists s1 s2, s = (s1 ++ s2)%string /\ lowerASCII s1 = x /\ lowerASCII s2 = y.
Proof.
  revert s. induction x as [|c x IH]; intros s H.
  - exists "", s. auto.
  - destruct s as [|d s]; [discriminate|]. simpl in H. injection H as Hc Hs.
    destruct (IH s Hs) as [s1 [s2 [-> [H1 H2]]]].
    exists (String d s1), s2. simpl. now rewrite Hc, H1.
Qed.

(** Occurring after ASCII lower-casing is occurring up to the case of
    the letters. *)
Lemma lowerASCII_occurs (q s : string) :
  substring_of (lowerASCII q) (lowerASCII s) <-> occurs_ignoring_case q s.
Proof.
  unfold substring_of, occurs_ignoring_case. split.
  - intros [a [b H]].
    destruct (lowerASCII_split s _ _ H) as [pre [rest [-> [Hpre Hrest]]]].
    destruct (lowerASCII_split rest _ _ Hrest) as [mid [post [-> [Hmid Hpost]]]].
    exists pre, mid, post. split; [reflexivity|]. now apply lowerASCII_same.
  - intros [pre [mid [post [-> Hsame]]]]. apply lowerASCII_same in Hsame.
    exists (lowerASCII pre), (lowerASCII post).
    now rewrite !lowerASCII_app, Hsame.
Qed.

Lemma is_ascii_app (a b : string) :
  is_ascii (a ++ b) = (is_ascii a && is_ascii b)%bool.
Proof.
  induction a as [|c a IH]; simpl; [reflexivity|].
  now rewrite IH, andb_assoc.
Qed.

Section SearchFacts.

Variable toLowerCase : string -> string.

(** What is assumed of the host: on ASCII text its lower-casing is the
    one of the letters A to Z. *)
Hypothesis toLowerCase_ascii :
  forall s : string, is_ascii s = true -> toLowerCase s = lowerASCII s.

(** The test that [handleSearchChange] applies to a row. *)
Lemma search_test_iff (value : string) (song : Song) :
  (includes (toLowerCase (name song)) (toLowerCase value)
   || match album_name (album song) with
      | Some n => includes (toLowerCase n) (toLowerCase value)
      | None => false
      end
   || existsb (fun artist =>
                 includes (toLowerCase (artist_name artist)) (toLowerCase value))
              (artists song))%bool = true
  <-> song_matches (occurs_lowered toLowerCase) value song.
Proof.
  unfold song_matches, occurs_lowered.
  rewrite !orb_true_iff, existsb_exists, includes_iff.
  split.
  - intros [[H|H]|[a [Ha H]]].
    + now left.
    + right; left. destruct (album_name (album song)) as [n|]; [|discriminate].
      exists n. split; [reflexivity|]. now apply includes_iff.
    + right; right. exists a. split; [assumption|]. now apply includes_iff.
  - intros [H|[[n [Hn H]]|[a [Ha H]]]].
    + now left; left.
    + left; right. rewrite Hn. now apply includes_iff.
    + right. exists a. split; [assumption|]. now apply includes_iff.
Qed.

(** On ASCII text the lower-casing of the host decides occurrence up to
    the case of the letters. *)
Lemma occurs_lowered_ascii (q s : string) :
  is_ascii q = true -> is_ascii s = true ->
  occurs_lowered toLowerCase q s <-> occurs_ignoring_case q s.
Proof.
  intros Hq Hs. unfold occurs_lowered.
  rewrite (toLowerCase_ascii q Hq), (toLowerCase_ascii s Hs).
  apply lowerASCII_occurs.
Qed.

Lemma song_matches_ascii (value : string) (song : Song) :
  is_ascii value = true -> song_is_ascii song = true ->
  song_matches (occurs_lowered toLowerCase) value song
  <-> song_matches occurs_ignoring_case value song.
Proof.
  intros Hq Hsong. unfold song_is_ascii in Hsong.
  apply andb_true_iff in Hsong as [Hsong Hartists].
  apply andb_true_iff in Hsong as [Hname Halbum].
  rewrite forallb_forall in Hartists.
  unfold song_matches. rewrite (occurs_lowered_ascii value (name song) Hq Hname).
  split; (intros [H|[[n [Hn H]]|[a [Ha H]]]]; [now left| |]).
  - right; left. exists n. split; [assumption|].
    rewrite Hn in Halbum. now apply occurs_lowered_ascii.
  - right; right. exists a. split; [assumption|].
    apply occurs_lowered_ascii; auto.
  - right; left. exists n. split; [assumption|].
    rewrite Hn in Halbum. now apply occurs_lowered_ascii.
  - right; right. exists a. split; [assumption|].
    apply occurs_lowered_ascii; auto.
Qed.


End SearchFacts.

Lemma lowerASCII_host (s : string) : is_ascii s = true -> lowerASCII s = lowerASCII s.
Proof. reflexivity. Qed.


(** ** Import *)

Section ImportFacts.

(** The JSON form of a row passes [isValidSong] whatever its numbers are,
    and reads back as the row. *)
Lemma every_artist (l : list Artist) :
  every (fun artist =>
            (n <- get artist "name" ;; Normal (typeof n =? "string")) &&&
            (u <- get artist "uri" ;; Normal (typeof u =? "string")))
        (map (fun a => JObject [("name", JString (artist_name a));
                                ("uri", JString (artist_uri a))]) l)
  = Normal true.
Proof. induction l as [|a rest IH]; simpl; [reflexivity|exact IH]. Qed.

Lemma every_image (l : list Image) :
  every (fun image =>
            (n <- get image "label" ;; Normal (typeof n =? "string")) &&&
            (u <- get image "url" ;; Normal (typeof u =? "string")))
        (map (fun i => JObject [("label", JString (image_label i));
                                ("url", JString (image_url i))]) l)
  = Normal true.
Proof. induction l as [|a rest IH]; simpl; [reflexivity|exact IH]. Qed.

Lemma isValidSong_Song_toJSON (s : Song) (n u : string) :
  album s = {| album_name := Some n; album_uri := Some u |} ->
  typeof (Some (metadata s)) = "object" -> metadata s <> JNull ->
  isValidSong (Song_toJSON s) = Normal true.
Proof.
  intros Ha Ht Hm. unfold isValidSong, Song_toJSON. rewrite Ha. simpl.
  rewrite every_artist, every_image. simpl.
  destruct (metadata s); simpl in *; try discriminate; try reflexivity. congruence.
Qed.

Lemma asSong_Song_toJSON (s : Song) (n u : string) :
  album s = {| album_name := Some n; album_uri := Some u |} ->
  asSong (Song_toJSON s) = s.
Proof.
  intros Ha. destruct s as [k i nm d al ar md im t]. simpl in Ha. subst al.
  unfold asSong, Song_toJSON. simpl. f_equal.
  - rewrite map_map. simpl. rewrite <- (map_id ar) at 2. apply map_ext. now intros [].
  - rewrite map_map. simpl. rewrite <- (map_id im) at 2. apply map_ext. now intros [].
Qed.

Lemma add_Success (s : Song) (rows rows' : list Song) :
  add s rows = Success rows' ->
  ~ In (uid s) (map uid rows) /\ ~ In (uri s) (map uri rows)
  /\ Permutation (s :: rows) rows'.
Proof.
  unfold add.
  destruct (key_exists (uid s) rows) eqn:Ek; [discriminate|].
  destruct (uri_exists (uri s) rows) eqn:Eu; [discriminate|].
  intros H. injection H as <-. split; [|split].
  - intros Hin. apply key_exists_In in Hin. congruence.
  - intros Hin. apply uri_exists_In in Hin. congruence.
  - now apply store_record_fresh.
Qed.

(** A committed transaction has added rows and touched none. *)
Lemma run_requests_keeps (placed rows rows' : list Song) :
  run_requests placed rows = Success rows' ->
  forall s, In s rows -> In s rows'.
Proof.
  revert rows. induction placed as [|p rest IH]; simpl; intros rows H s Hs.
  - now injection H as <-.
  - destruct (add p rows) as [rows1|e] eqn:Ea; [|discriminate].
    apply add_Success in Ea as [_ [_ Hperm]].
    apply (IH rows1 H). eapply Permutation_in; [exact Hperm|]. now right.
Qed.

(** A transaction commits only if no request of it meets its uri in
    the store. *)
Lemma run_requests_no_conflict (placed rows rows' : list Song) :
  run_requests placed rows = Success rows' ->
  forall p, In p placed -> ~ In (uri p) (map uri rows).
Proof.
  revert rows. induction placed as [|q rest IH]; simpl; intros rows H p Hp.
  - contradiction.
  - destruct (add q rows) as [rows1|e] eqn:Ea; [|discriminate].
    apply add_Success in Ea as [_ [Huri Hperm]].
    destruct Hp as [->|Hp]; [assumption|].
    intros Hin. apply (IH rows1 H p Hp).
    eapply Permutation_in; [apply Permutation_map; exact Hperm|]. now right.
Qed.

Lemma transaction_Success (db : IDBDatabase) (placed rows' : list Song) :
  transaction db placed = Success rows' ->
  run_requests placed (history db) = Success rows'.
Proof.
  unfold transaction. destruct placed as [|p rest]; [tauto|].
  destruct (fault db); [discriminate | tauto].
Qed.

Lemma import_loop_valid (items : list json) :
  Forall (fun j => isValidSong j = Normal true) items ->
  import_loop items = (map asSong items, None).
Proof.
  induction 1 as [|j rest Hj Hrest IH]; simpl; [reflexivity|].
  now rewrite Hj, IH.
Qed.

(** The loop stops at the first record that does not pass, with the
    requests for the records before it placed. *)
Lemma import_loop_invalid (valid : list json) (bad : json) (rest : list json) :
  Forall (fun j => isValidSong j = Normal true) valid ->
  isValidSong bad <> Normal true ->
  exists e : exn, import_loop (valid ++ bad :: rest) = (map asSong valid, Some e).
Proof.
  intros Hvalid Hbad. induction Hvalid as [|j more Hj Hmore IH]; simpl.
  - destruct (isValidSong bad) as [[|]|e]; [congruence | eauto | eauto].
  - rewrite Hj. destruct IH as [e ->]. eauto.
Qed.

(** No run of the import removes or changes a row of the store. *)
Lemma importHistoryAsFile_keeps (db : IDBDatabase) (file : option File) (s : Song) :
  In s (history db) -> In s (history (import_db (importHistoryAsFile db file))).
Proof.
  intros Hs. unfold importHistoryAsFile.
  destruct file as [f|]; [|assumption].
  destruct (bind (JSON_parse f) _) as [items|e]; [|assumption].
  destruct (import_loop items) as [placed thrown].
  destruct (transaction db placed) as [rows|e] eqn:Et;
    destruct thrown; simpl; try assumption;
    apply transaction_Success in Et;
    eapply run_requests_keeps; eassumption.
Qed.

(** X28: an import that stops at a record that does not pass still
    commits the records before it, when their requests succeed, and
    announces a failure. *)
Lemma importHistoryAsFile_commits_before_invalid
      (rows rows' : list Song) (valid : list json) (bad : json) (rest : list json) :
  Forall (fun j => isValidSong j = Normal true) valid ->
  isValidSong bad <> Normal true ->
  run_requests (map asSong valid) rows = Success rows' ->
  importHistoryAsFile (open_db rows) (Some (Document (JArray (valid ++ bad :: rest))))
  = {| import_db := open_db rows';
       import_notifications :=
         ["Importing history..."; "Failed to import history"] |}.
Proof.
  intros Hvalid Hbad Hrun. unfold importHistoryAsFile. simpl.
  destruct (import_loop_invalid valid bad rest Hvalid Hbad) as [e ->].
  assert (Ht : transaction (open_db rows) (map asSong valid) = Success rows').
  { unfold transaction. simpl. now destruct (map asSong valid). }
  now rewrite Ht.
Qed.

End ImportFacts.

(** C3 fails on the code: a document of a valid record followed by one
    without its duration is announced as failed, and the valid record is
    in the store afterwards. *)
Theorem importHistoryAsFile_partial_commit :
  isValidSong (Song_toJSON Sample.rhapsody) = Normal true
  /\ isValidSong Sample.love_without_duration = Normal false
  /\ importHistoryAsFile (open_db []) (Some Sample.malformed_document)
     = {| import_db := open_db [Sample.rhapsody];
          import_notifications :=
            ["Importing history..."; "Failed to import history"] |}.
Proof. repeat split. Qed.

Lemma error_events_bounds (placed rows : list Song) (e : DOMException) :
  run_requests placed rows = Failure e ->
  (1 <= error_events placed rows <= List.length placed)%nat.
Proof.
  revert rows. induction placed as [|p rest IH]; simpl; intros rows H.
  - discriminate.
  - destruct (add p rows) as [rows1|e1]; simpl; [|lia].
    specialize (IH rows1 H). lia.
Qed.

Lemma transaction_errors_bounds (db : IDBDatabase) (placed : list Song)
      (e : DOMException) :
  transaction db placed = Failure e ->
  (1 <= transaction_errors db placed <= List.length placed)%nat.
Proof.
  unfold transaction, transaction_errors. destruct placed as [|p rest].
  - simpl. destruct (fault db); discriminate.
  - destruct (fault db); [simpl; lia|]. apply error_events_bounds.
Qed.




(** C10: [isValidSong] accepts a record whatever the numbers of its
    duration and of its [listenDate]; one of a negative duration that is
    not a whole number passes and is stored by the import. *)
Theorem isValidSong_accepts_any_number :
  (forall ms t : Q,
      isValidSong (Song_toJSON (Sample.track "k9" "spotify:track:odd" "Odd" ms t))
      = Normal true)
  /\ duration_milliseconds Sample.odd < 0
  /\ (forall z : Z, ~ duration_milliseconds Sample.odd == inject_Z z)
  /\ isValidSong (Song_toJSON Sample.odd) = Normal true
  /\ importHistoryAsFile (open_db [])
                         (Some (Document (JArray [Song_toJSON Sample.odd])))
     = {| import_db := open_db [Sample.odd];
          import_notifications := ["Importing history..."; "History imported"] |}.
Proof.
  split; [reflexivity|]. split; [reflexivity|]. split; [|split; reflexivity].
  intros z. unfold Qeq. simpl. lia.
Qed.

(** * Further properties of the code *)

(** ** [saveSongToDB], row by row *)

(** The rows after a call are rows from before, the saved record, or a
    row from before with the [listenDate] of the saved record. *)
Lemma saveSongToDB_rows (db : IDBDatabase) (song row : Song) :
  In row (history (snd (saveSongToDB db song))) ->
  In row (history db)
  \/ row = song
  \/ exists found, In found (history db)
                   /\ row = set_listenDate found (listenDate song).
Proof.
  unfold saveSongToDB. destruct (fault db); [auto|].
  destruct (index_get (uri song) (history db)) as [found|] eqn:Eget.
  - unfold put. destruct (existsb _ (history db)); simpl; [auto|].
    intros H. apply In_store_record in H as [->|H]; [|auto].
    right; right. exists found. split; [|reflexivity].
    now apply index_get_Some in Eget.
  - unfold add. destruct (key_exists _ _); simpl; [auto|].
    destruct (uri_exists _ _); simpl; [auto|].
    intros H. apply In_store_record in H as [->|H]; auto.
Qed.

Lemma index_get_touch (u : string) (t : Q) (rows : list Song) :
  In u (map uri rows) ->
  exists row, In row rows /\ uri row = u
              /\ index_get u (map (fun x => if uri x =? u
                                            then set_listenDate x t else x) rows)
                 = Some (set_listenDate row t).
Proof.
  unfold index_get. induction rows as [|x rest IH]; simpl; [tauto|].
  intros H. destruct (uri x =? u) eqn:E.
  - exists x. apply String.eqb_eq in E. simpl. rewrite E, String.eqb_refl. auto.
  - rewrite E. destruct H as [H|H].
    + apply String.eqb_neq in E. contradiction.
    + destruct (IH H) as [row [Hin [Hu Hfind]]]. exists row. auto.
Qed.

(** X1: a record that [saveSongToDB] accepted is found under its uri,
    with its [listenDate]. *)
Theorem saveSongToDB_then_index_get (rows : list Song) (song : Song)
        (db' : IDBDatabase) :
  store_ok rows ->
  saveSongToDB (open_db rows) song = (Resolved tt, db') ->
  exists row, index_get (uri song) (history db') = Some row
              /\ uri row = uri song
              /\ listenDate row = listenDate song.
Proof.
  intros Hok Hsave.
  destruct (index_get (uri song) rows) as [found|] eqn:Eget.
  - assert (Hin : In (uri song) (map uri rows)).
    { apply index_get_Some in Eget as [H1 H2]. rewrite <- H2. now apply in_map. }
    rewrite (saveSongToDB_found rows song Hok Hin) in Hsave.
    injection Hsave as <-. simpl.
    destruct (index_get_touch (uri song) (listenDate song) rows Hin)
      as [row [_ [Hu Hfind]]].
    exists (set_listenDate row (listenDate song)). auto.
  - apply index_get_None in Eget.
    destruct (key_exists (uid song) rows) eqn:Ek.
    + exfalso. revert Hsave. unfold saveSongToDB. simpl.
      apply index_get_None in Eget. rewrite Eget. unfold add. rewrite Ek.
      discriminate.
    + assert (Huid : ~ In (uid song) (map uid rows)).
      { intros H. apply key_exists_In in H. congruence. }
      destruct (saveSongToDB_new rows song Hok Eget Huid) as [Hrun [Hperm Hok']].
      rewrite Hrun in Hsave. injection Hsave as <-. simpl.
      assert (Hsong : In song (store_record song rows)).
      { eapply Permutation_in; [exact Hperm|]. now left. }
      destruct (index_get (uri song) (store_record song rows)) as [row|] eqn:E.
      * exists row. apply index_get_Some in E as [Hrow Hu].
        assert (row = song).
        { eapply NoDup_map_inj; [apply Hok'| | |]; assumption. }
        subst row. auto.
      * apply index_get_None in E. exfalso. apply E. now apply in_map.
Qed.

Lemma saveSongToDB_then_index_get_witness :
  store_ok [Sample.rhapsody; Sample.love]
  /\ exists row,
       index_get (uri Sample.rhapsody_again)
                 [set_listenDate Sample.rhapsody 2000; Sample.love] = Some row
       /\ uri row = uri Sample.rhapsody_again
       /\ listenDate row = listenDate Sample.rhapsody_again.
Proof.
  split; [exact sample_store_ok|].
  exact (saveSongToDB_then_index_get [Sample.rhapsody; Sample.love]
           Sample.rhapsody_again
           (open_db [set_listenDate Sample.rhapsody 2000; Sample.love])
           sample_store_ok eq_refl).
Defined.

Lemma saveSongToDB_clash (rows : list Song) (song : Song) :
  ~ In (uri song) (map uri rows) -> In (uid song) (map uid rows) ->
  saveSongToDB (open_db rows) song = (Rejected ConstraintError, open_db rows).
Proof.
  intros Huri Huid. unfold saveSongToDB. simpl.
  apply index_get_None in Huri. rewrite Huri. unfold add.
  apply key_exists_In in Huid. now rewrite Huid.
Qed.

(** X2: on a working store [saveSongToDB] is rejected exactly when no
    row has the uri of the record and some row has its uid; the store is
    then as it was. *)
Theorem saveSongToDB_rejected_iff (rows : list Song) (song : Song) :
  store_ok rows ->
  ((exists e, fst (saveSongToDB (open_db rows) song) = Rejected e)
   <-> ~ In (uri song) (map uri rows) /\ In (uid song) (map uid rows))
  /\ ((exists e, fst (saveSongToDB (open_db rows) song) = Rejected e) ->
      snd (saveSongToDB (open_db rows) song) = open_db rows).
Proof.
  intros Hok.
  destruct (index_get (uri song) rows) as [found|] eqn:Eget.
  - assert (Hin : In (uri song) (map uri rows)).
    { apply index_get_Some in Eget as [H1 H2]. rewrite <- H2. now apply in_map. }
    rewrite (saveSongToDB_found rows song Hok Hin). simpl.
    split; [split|]; try (intros [e H]; discriminate). tauto.
  - apply index_get_None in Eget.
    destruct (key_exists (uid song) rows) eqn:Ek.
    + apply key_exists_In in Ek.
      rewrite (saveSongToDB_clash rows song Eget Ek).
      simpl. split; [split|]; eauto.
    + assert (Huid : ~ In (uid song) (map uid rows)).
      { intros H. apply key_exists_In in H. congruence. }
      destruct (saveSongToDB_new rows song Hok Eget Huid) as [Hrun _].
      rewrite Hrun. simpl.
      split; [split|]; try (intros [e H]; discriminate). tauto.
Qed.

Lemma saveSongToDB_rejected_iff_witness :
  store_ok [Sample.rhapsody]
  /\ ((exists e, fst (saveSongToDB (open_db [Sample.rhapsody]) Sample.clash)
                 = Rejected e)
      <-> ~ In (uri Sample.clash) (map uri [Sample.rhapsody])
          /\ In (uid Sample.clash) (map uid [Sample.rhapsody])).
Proof.
  assert (Hok : store_ok [Sample.rhapsody]).
  { split; repeat constructor. simpl. tauto. }
  split; [exact Hok|].
  exact (proj1 (saveSongToDB_rejected_iff [Sample.rhapsody] Sample.clash Hok)).
Defined.

(** X3: [saveSongToDB] removes no row and changes no field of a row
    other than the [listenDate] of the row of the saved uri; the store
    grows by at most one row. *)
Theorem saveSongToDB_keeps_rows (rows : list Song) (song : Song) :
  store_ok rows ->
  (forall row, In row rows ->
     In (if uri row =? uri song then set_listenDate row (listenDate song) else row)
        (history (snd (saveSongToDB (open_db rows) song))))
  /\ (List.length rows
      <= List.length (history (snd (saveSongToDB (open_db rows) song)))
      <= S (List.length rows))%nat.
Proof.
  intros Hok.
  destruct (index_get (uri song) rows) as [found|] eqn:Eget.
  - assert (Hin : In (uri song) (map uri rows)).
    { apply index_get_Some in Eget as [H1 H2]. rewrite <- H2. now apply in_map. }
    rewrite (saveSongToDB_found rows song Hok Hin). simpl. split.
    + intros row Hrow.
      now apply (in_map (fun x => if uri x =? uri song
                                  then set_listenDate x (listenDate song) else x)).
    + rewrite length_map. lia.
  - apply index_get_None in Eget.
    assert (Hfresh : forall row, In row rows -> (uri row =? uri song) = false).
    { intros row Hrow. apply String.eqb_neq. intros E. apply Eget.
      rewrite <- E. now apply in_map. }
    destruct (key_exists (uid song) rows) eqn:Ek.
    + apply key_exists_In in Ek. rewrite (saveSongToDB_clash rows song Eget Ek).
      simpl. split; [|lia]. intros row Hrow. now rewrite (Hfresh row Hrow).
    + assert (Huid : ~ In (uid song) (map uid rows)).
      { intros H. apply key_exists_In in H. congruence. }
      destruct (saveSongToDB_new rows song Hok Eget Huid) as [Hrun [Hperm _]].
      rewrite Hrun. simpl. split.
      * intros row Hrow. rewrite (Hfresh row Hrow).
        eapply Permutation_in; [exact Hperm|]. now right.
      * rewrite <- (Permutation_length Hperm). simpl. lia.
Qed.

Lemma saveSongToDB_keeps_rows_witness :
  store_ok [Sample.rhapsody; Sample.love]
  /\ In Sample.love
        (history (snd (saveSongToDB (open_db [Sample.rhapsody; Sample.love])
                                    Sample.rhapsody_again))).
Proof.
  split; [exact sample_store_ok|].
  refine (proj1 (saveSongToDB_keeps_rows [Sample.rhapsody; Sample.love]
                   Sample.rhapsody_again sample_store_ok) Sample.love _).
  simpl. auto.
Defined.

(** ** Sessions of plays *)

Lemma last_default {A : Type} (l : list A) (x d d' : A) :
  last (x :: l) d = last (x :: l) d'.
Proof.
  revert x. induction l as [|y rest IH]; intros x; [reflexivity|].
  change (last (y :: rest) d = last (y :: rest) d'). apply IH.
Qed.

Lemma session_same_uri (r0 : Song) (plays : list Song) :
  Forall (fun p => uri p = uri r0) plays ->
  session (open_db [r0]) plays
  = open_db [set_listenDate r0 (listenDate (last plays r0))].
Proof.
  revert r0. induction plays as [|p rest IH]; intros r0 Hall.
  - simpl. now destruct r0.
  - inversion Hall as [|? ? Hp Hrest]; subst.
    unfold session in *. simpl. unfold songchange at 2.
    unfold saveSongToDB, index_get, put. simpl.
    rewrite Hp, !String.eqb_refl. simpl. rewrite compare_refl. simpl.
    unfold with_history. simpl.
    change {| fault := None; history := [set_listenDate r0 (listenDate p)] |}
      with (open_db [set_listenDate r0 (listenDate p)]).
    rewrite (IH (set_listenDate r0 (listenDate p))) by exact Hrest.
    destruct rest as [|q rest']; [reflexivity|].
    now rewrite (last_default rest' q (set_listenDate r0 (listenDate p)) r0).
Qed.

(** X4: however often a track is played, the store holds one row for
    it: the record of the first play with the [listenDate] of the last. *)
Theorem session_replays (first : Song) (plays : list Song) :
  Forall (fun p => uri p = uri first) plays ->
  history (session (open_db []) (first :: plays))
  = [set_listenDate first (listenDate (last plays first))].
Proof.
  intros Hall.
  change (session (open_db []) (first :: plays))
    with (session (open_db [first]) plays).
  now rewrite (session_same_uri first plays Hall).
Qed.

Lemma session_replays_witness :
  Forall (fun p => uri p = uri Sample.rhapsody) [Sample.rhapsody_again]
  /\ history (session (open_db []) [Sample.rhapsody; Sample.rhapsody_again])
     = [set_listenDate Sample.rhapsody 2000].
Proof.
  assert (H : Forall (fun p => uri p = uri Sample.rhapsody) [Sample.rhapsody_again]).
  { repeat constructor. }
  split; [exact H|].
  exact (session_replays Sample.rhapsody [Sample.rhapsody_again] H).
Defined.

Lemma set_listenDate_self (s : Song) : set_listenDate s (listenDate s) = s.
Proof. now destruct s. Qed.

Lemma session_rows_from_plays (plays : list Song) (row : Song) :
  In row (history (session (open_db []) plays)) ->
  exists p q, In p plays /\ In q plays
              /\ row = set_listenDate p (listenDate q).
Proof.
  assert (Hgen : forall (todo : list Song) (db : IDBDatabase),
             incl todo plays ->
             (forall r, In r (history db) ->
                exists p q, In p plays /\ In q plays
                            /\ r = set_listenDate p (listenDate q)) ->
             forall r, In r (history (session db todo)) ->
               exists p q, In p plays /\ In q plays
                           /\ r = set_listenDate p (listenDate q)).
  { induction todo as [|s rest IH]; intros db Hincl Hdb r Hr; [now apply Hdb|].
    unfold session in Hr. simpl in Hr.
    assert (Hs : In s plays) by (apply Hincl; now left).
    apply (IH (songchange db s)); [intros x Hx; apply Hincl; now right | | exact Hr].
    intros x Hx. apply saveSongToDB_rows in Hx as [Hx|[->|[found [Hf ->]]]].
    - now apply Hdb.
    - exists s, s. now rewrite set_listenDate_self.
    - destruct (Hdb found Hf) as [p [q [Hp [Hq ->]]]]. exists p, s. auto. }
  apply (Hgen plays (open_db [])); [apply incl_refl | intros r []].
Qed.

(** X5: every row of the store after a session is the record of one of
    its plays, with the [listenDate] of one of its plays: nothing is
    stored that was not played. *)
Theorem session_only_plays (plays : list Song) (row : Song) :
  In row (history (session (open_db []) plays)) ->
  exists p q, In p plays /\ In q plays
              /\ row = set_listenDate p (listenDate q).
Proof. exact (session_rows_from_plays plays row). Qed.

Lemma session_only_plays_witness :
  In (set_listenDate Sample.rhapsody 2000)
     (history (session (open_db []) [Sample.rhapsody; Sample.rhapsody_again]))
  /\ exists p q, In p [Sample.rhapsody; Sample.rhapsody_again]
                 /\ In q [Sample.rhapsody; Sample.rhapsody_again]
                 /\ set_listenDate Sample.rhapsody 2000
                    = set_listenDate p (listenDate q).
Proof.
  assert (H : In (set_listenDate Sample.rhapsody 2000)
                (history (session (open_db [])
                                  [Sample.rhapsody; Sample.rhapsody_again]))).
  { simpl. auto. }
  split; [exact H|].
  exact (session_only_plays [Sample.rhapsody; Sample.rhapsody_again] _ H).
Defined.

(** ** Delete and clear *)

Lemma StronglySorted_filter {A : Type} (R : A -> A -> Prop) (f : A -> bool)
      (l : list A) :
  StronglySorted R l -> StronglySorted R (filter f l).
Proof.
  induction 1 as [|x rest Hs IH Hall]; simpl; [constructor|].
  destruct (f x); [|assumption]. constructor; [assumption|].
  apply Forall_forall. intros y Hy. apply filter_In in Hy as [Hy _].
  rewrite Forall_forall in Hall. auto.
Qed.

Lemma NoDup_map_filter {A B : Type} (g : A -> B) (f : A -> bool) (l : list A) :
  NoDup (map g l) -> NoDup (map g (filter f l)).
Proof.
  induction l as [|x rest IH]; simpl; intros H; [constructor|].
  inversion H as [|? ? Hx Hrest]; subst.
  destruct (f x); simpl; [|auto]. constructor; [|auto].
  intros Hin. apply Hx. apply in_map_iff in Hin as [y [Hy Hin]].
  apply filter_In in Hin as [Hin _]. rewrite <- Hy. now apply in_map.
Qed.

Lemma delete_length (k : string) (rows : list Song) :
  NoDup (map uid rows) -> In k (map uid rows) ->
  S (List.length (delete k rows)) = List.length rows.
Proof.
  unfold delete. induction rows as [|x rest IH]; simpl; [tauto|].
  intros Hnd Hin. inversion Hnd as [|? ? Hx Hrest]; subst.
  destruct (uid x =? k) eqn:E; simpl.
  - apply String.eqb_eq in E. subst k. f_equal.
    change (filter (fun s => negb (uid s =? uid x)) rest) with (delete (uid x) rest).
    now rewrite delete_absent.
  - f_equal. apply IH; [assumption|].
    destruct Hin as [Hin|Hin]; [|assumption].
    apply String.eqb_neq in E. contradiction.
Qed.

(** X6: on a working store [deleteSongFromDB] removes the row of the
    key and no other, one row exactly when the key is there, and leaves
    the store a store. *)
Theorem deleteSongFromDB_removes (rows : list Song) (k : string) :
  store_ok rows ->
  store_ok (history (delete_db (deleteSongFromDB (open_db rows) k)))
  /\ (forall s, In s (history (delete_db (deleteSongFromDB (open_db rows) k)))
                <-> In s rows /\ uid s <> k)
  /\ (In k (map uid rows) ->
      S (List.length (history (delete_db (deleteSongFromDB (open_db rows) k))))
      = List.length rows).
Proof.
  intros [Hs Hnd]. simpl. split; [split|split].
  - now apply StronglySorted_filter.
  - now apply NoDup_map_filter.
  - intros s. unfold delete. rewrite filter_In, negb_true_iff, String.eqb_neq.
    tauto.
  - apply delete_length. now apply sorted_NoDup_uid.
Qed.

Lemma deleteSongFromDB_removes_witness :
  store_ok [Sample.rhapsody; Sample.love]
  /\ In "k1" (map uid [Sample.rhapsody; Sample.love])
  /\ S (List.length
          (history (delete_db (deleteSongFromDB
                                 (open_db [Sample.rhapsody; Sample.love]) "k1"))))
     = List.length [Sample.rhapsody; Sample.love].
Proof.
  assert (Hin : In "k1" (map uid [Sample.rhapsody; Sample.love])).
  { simpl. auto. }
  split; [exact sample_store_ok|]. split; [exact Hin|].
  exact (proj2 (proj2 (deleteSongFromDB_removes [Sample.rhapsody; Sample.love] "k1"
                         sample_store_ok)) Hin).
Defined.

Lemma delete_store_record (r : Song) (rows : list Song) :
  ~ In (uid r) (map uid rows) -> delete (uid r) (store_record r rows) = rows.
Proof.
  induction rows as [|x rest IH]; simpl; intros H.
  - unfold delete. simpl. now rewrite String.eqb_refl.
  - destruct (String.compare (uid r) (uid x)) eqn:E.
    + apply compare_Eq_eq in E. exfalso. apply H. now left.
    + unfold delete. simpl. rewrite String.eqb_refl. simpl.
      assert (Hx : (uid x =? uid r) = false).
      { apply String.eqb_neq. intros Ex. apply H. now left. }
      rewrite Hx. simpl. f_equal.
      change (filter (fun s => negb (uid s =? uid r)) rest) with (delete (uid r) rest).
      apply delete_absent. tauto.
    + unfold delete. simpl.
      assert (Hx : (uid x =? uid r) = false).
      { apply String.eqb_neq. intros Ex. apply H. now left. }
      rewrite Hx. simpl. f_equal. apply IH. tauto.
Qed.

(** X7: deleting the uid of a record that [saveSongToDB] has just
    inserted as a new row gives back the store from before. *)
Theorem saveSongToDB_then_delete (rows : list Song) (song : Song) :
  store_ok rows ->
  ~ In (uri song) (map uri rows) -> ~ In (uid song) (map uid rows) ->
  delete_db (deleteSongFromDB (snd (saveSongToDB (open_db rows) song)) (uid song))
  = open_db rows.
Proof.
  intros Hok Huri Huid.
  destruct (saveSongToDB_new rows song Hok Huri Huid) as [Hrun _].
  rewrite Hrun. simpl. unfold with_history, open_db. simpl.
  now rewrite delete_store_record.
Qed.

Lemma saveSongToDB_then_delete_witness :
  store_ok [Sample.rhapsody]
  /\ ~ In (uri Sample.love) (map uri [Sample.rhapsody])
  /\ ~ In (uid Sample.love) (map uid [Sample.rhapsody])
  /\ delete_db (deleteSongFromDB
                  (snd (saveSongToDB (open_db [Sample.rhapsody]) Sample.love))
                  (uid Sample.love))
     = open_db [Sample.rhapsody].
Proof.
  assert (Hok : store_ok [Sample.rhapsody]).
  { split; repeat constructor. simpl. tauto. }
  assert (Huri : ~ In (uri Sample.love) (map uri [Sample.rhapsody])).
  { simpl. intros [H|[]]. discriminate. }
  assert (Huid : ~ In (uid Sample.love) (map uid [Sample.rhapsody])).
  { simpl. intros [H|[]]. discriminate. }
  split; [exact Hok|]. split; [exact Huri|]. split; [exact Huid|].
  exact (saveSongToDB_then_delete [Sample.rhapsody] Sample.love Hok Huri Huid).
Defined.

(** ** Import, further *)

Lemma run_requests_Permutation (placed rows rows' : list Song) :
  run_requests placed rows = Success rows' ->
  Permutation (placed ++ rows) rows'.
Proof.
  revert rows. induction placed as [|p rest IH]; simpl; intros rows H.
  - now injection H as <-.
  - destruct (add p rows) as [rows1|e] eqn:Ea; [|discriminate].
    apply add_Success in Ea as [_ [_ Hperm]].
    rewrite <- (IH rows1 H). rewrite <- Hperm. apply Permutation_middle.
Qed.

Lemma run_requests_store_ok (placed rows rows' : list Song) :
  store_ok rows -> run_requests placed rows = Success rows' -> store_ok rows'.
Proof.
  revert rows. induction placed as [|p rest IH]; simpl; intros rows Hok H.
  - now injection H as <-.
  - destruct (add p rows) as [rows1|e] eqn:Ea; [|discriminate].
    apply (IH rows1); [|assumption]. now destruct (add_ok _ _ _ Hok Ea).
Qed.

(** Requests for records of new uids and new uris all succeed. *)
Lemma run_requests_fresh (placed rows : list Song) :
  NoDup (map uid (placed ++ rows)) -> NoDup (map uri (placed ++ rows)) ->
  exists rows', run_requests placed rows = Success rows'.
Proof.
  revert rows. induction placed as [|p rest IH]; simpl; intros rows Hk Hu.
  - eauto.
  - inversion Hk as [|? ? Hpk Hk']; subst. inversion Hu as [|? ? Hpu Hu']; subst.
    unfold add.
    destruct (key_exists (uid p) rows) eqn:Ek.
    { exfalso. apply Hpk. rewrite map_app. apply in_or_app. right.
      now apply key_exists_In. }
    destruct (uri_exists (uri p) rows) eqn:Eu.
    { exfalso. apply Hpu. rewrite map_app. apply in_or_app. right.
      now apply uri_exists_In. }
    pose proof (store_record_fresh p rows Ek) as Hperm.
    apply IH.
    + eapply Permutation_NoDup; [|exact Hk].
      change (uid p :: map uid (rest ++ rows)) with (map uid (p :: rest ++ rows)).
      apply Permutation_map. rewrite <- Hperm. apply Permutation_middle.
    + eapply Permutation_NoDup; [|exact Hu].
      change (uri p :: map uri (rest ++ rows)) with (map uri (p :: rest ++ rows)).
      apply Permutation_map. rewrite <- Hperm. apply Permutation_middle.
Qed.

Lemma with_history_same (db : IDBDatabase) : with_history db (history db) = db.
Proof. now destruct db. Qed.

(** X9: when every record of an array passes [isValidSong], the import
    stores all of its records beside the rows of the store and says
    "History imported", or stores none of them and says "Failed to
    import history", at least once and at most once for each record. *)
Theorem importHistoryAsFile_all_or_nothing (db : IDBDatabase) (items : list json) :
  Forall (fun j => isValidSong j = Normal true) items ->
  (Permutation (map asSong items ++ history db)
               (history (import_db (importHistoryAsFile
                                      db (Some (Document (JArray items))))))
   /\ import_notifications (importHistoryAsFile db (Some (Document (JArray items))))
      = ["Importing history..."; "History imported"])
  \/ (import_db (importHistoryAsFile db (Some (Document (JArray items)))) = db
      /\ exists n : nat,
           (1 <= n <= List.length items)%nat
           /\ import_notifications
                (importHistoryAsFile db (Some (Document (JArray items))))
              = "Importing history..." :: repeat "Failed to import history" n).
Proof.
  intros Hvalid. unfold importHistoryAsFile. simpl.
  rewrite (import_loop_valid items Hvalid).
  destruct (transaction db (map asSong items)) as [rows|e] eqn:Et; simpl.
  - left. split; [|reflexivity]. apply transaction_Success in Et.
    now apply run_requests_Permutation.
  - right. split; [reflexivity|].
    exists (transaction_errors db (map asSong items)). split; [|reflexivity].
    rewrite <- (length_map asSong items).
    eapply transaction_errors_bounds; exact Et.
Qed.

Lemma importHistoryAsFile_all_or_nothing_witness :
  Forall (fun j => isValidSong j = Normal true) (map Song_toJSON Sample.merge_records)
  /\ ((Permutation
         (map asSong (map Song_toJSON Sample.merge_records)
          ++ history (open_db [Sample.rhapsody]))
         (history (import_db (importHistoryAsFile (open_db [Sample.rhapsody])
                                (Some Sample.merge_document))))
       /\ import_notifications (importHistoryAsFile (open_db [Sample.rhapsody])
                                   (Some Sample.merge_document))
          = ["Importing history..."; "History imported"])
      \/ (import_db (importHistoryAsFile (open_db [Sample.rhapsody])
                                         (Some Sample.merge_document))
          = open_db [Sample.rhapsody]
          /\ exists n : nat,
               (1 <= n <= List.length (map Song_toJSON Sample.merge_records))%nat
               /\ import_notifications
                    (importHistoryAsFile (open_db [Sample.rhapsody])
                                         (Some Sample.merge_document))
                  = "Importing history..."
                    :: repeat "Failed to import history" n)).
Proof.
  assert (Hvalid : Forall (fun j => isValidSong j = Normal true)
                          (map Song_toJSON Sample.merge_records)).
  { repeat constructor. }
  split; [exact Hvalid|].
  exact (importHistoryAsFile_all_or_nothing (open_db [Sample.rhapsody])
           (map Song_toJSON Sample.merge_records) Hvalid).
Defined.

Lemma import_fresh_records (rows : list Song) (items : list json) :
  Forall (fun j => isValidSong j = Normal true) items ->
  NoDup (map uid (map asSong items ++ rows)) ->
  NoDup (map uri (map asSong items ++ rows)) ->
  exists rows',
    importHistoryAsFile (open_db rows) (Some (Document (JArray items)))
    = {| import_db := open_db rows';
         import_notifications := ["Importing history..."; "History imported"] |}
    /\ Permutation (map asSong items ++ rows) rows'.
Proof.
  intros Hvalid Hk Hu.
  destruct (run_requests_fresh _ _ Hk Hu) as [rows' Hrun].
  exists rows'. split; [|now apply run_requests_Permutation].
  unfold importHistoryAsFile. simpl. rewrite (import_loop_valid items Hvalid).
  assert (Ht : transaction (open_db rows) (map asSong items) = Success rows').
  { unfold transaction. simpl. now destruct (map asSong items). }
  now rewrite Ht.
Qed.

(** X10: on a working store, a document of valid records whose uids
    and uris are new and pairwise different is imported in full. *)
Theorem importHistoryAsFile_merges (rows : list Song) (items : list json) :
  Forall (fun j => isValidSong j = Normal true) items ->
  NoDup (map uid (map asSong items ++ rows)) ->
  NoDup (map uri (map asSong items ++ rows)) ->
  exists rows',
    importHistoryAsFile (open_db rows) (Some (Document (JArray items)))
    = {| import_db := open_db rows';
         import_notifications := ["Importing history..."; "History imported"] |}
    /\ Permutation (map asSong items ++ rows) rows'.
Proof. exact (import_fresh_records rows items). Qed.

Lemma importHistoryAsFile_merges_witness :
  Forall (fun j => isValidSong j = Normal true) [Song_toJSON Sample.love]
  /\ NoDup (map uid (map asSong [Song_toJSON Sample.love] ++ [Sample.rhapsody]))
  /\ NoDup (map uri (map asSong [Song_toJSON Sample.love] ++ [Sample.rhapsody]))
  /\ exists rows',
       importHistoryAsFile (open_db [Sample.rhapsody])
                           (Some (Document (JArray [Song_toJSON Sample.love])))
       = {| import_db := open_db rows';
            import_notifications := ["Importing history..."; "History imported"] |}
       /\ Permutation (map asSong [Song_toJSON Sample.love] ++ [Sample.rhapsody]) rows'.
Proof.
  assert (Hvalid : Forall (fun j => isValidSong j = Normal true)
                          [Song_toJSON Sample.love]).
  { repeat constructor. }
  assert (Hk : NoDup (map uid (map asSong [Song_toJSON Sample.love]
                               ++ [Sample.rhapsody]))).
  { repeat constructor; simpl; intuition discriminate. }
  assert (Hu : NoDup (map uri (map asSong [Song_toJSON Sample.love]
                               ++ [Sample.rhapsody]))).
  { repeat constructor; simpl; intuition discriminate. }
  split; [exact Hvalid|]. split; [exact Hk|]. split; [exact Hu|].
  exact (importHistoryAsFile_merges [Sample.rhapsody] [Song_toJSON Sample.love]
           Hvalid Hk Hu).
Defined.

Lemma import_keeps_store_ok (db : IDBDatabase) (file : option File) :
  store_ok (history db) ->
  store_ok (history (import_db (importHistoryAsFile db file))).
Proof.
  intros Hok. unfold importHistoryAsFile.
  destruct file as [f|]; [|assumption].
  destruct (bind (JSON_parse f) _) as [items|e]; [|assumption].
  destruct (import_loop items) as [placed thrown].
  destruct (transaction db placed) as [rows|e] eqn:Et;
    destruct thrown; simpl; try assumption;
    apply transaction_Success in Et;
    eapply run_requests_store_ok; eassumption.
Qed.

(** X11: whatever the file, the import leaves the store a store: keys
    in order, no key and no uri twice. *)
Theorem importHistoryAsFile_store_ok (db : IDBDatabase) (file : option File) :
  store_ok (history db) ->
  store_ok (history (import_db (importHistoryAsFile db file))).
Proof. exact (import_keeps_store_ok db file). Qed.

Lemma importHistoryAsFile_store_ok_witness :
  store_ok [Sample.rhapsody; Sample.love]
  /\ store_ok (history (import_db (importHistoryAsFile
                                     (open_db [Sample.rhapsody; Sample.love])
                                     (Some Sample.malformed_document)))).
Proof.
  split; [exact sample_store_ok|].
  exact (importHistoryAsFile_store_ok (open_db [Sample.rhapsody; Sample.love])
           (Some Sample.malformed_document) sample_store_ok).
Defined.

Lemma import_loop_characters (s : string) :
  fst (import_loop (characters s)) = [].
Proof. destruct s; reflexivity. Qed.

(** X12: a file that is not a JSON array (no file, text that is not
    JSON, an object, a number, a string, [null]) changes nothing in the
    store. *)
Theorem importHistoryAsFile_not_an_array (db : IDBDatabase) (file : option File) :
  (forall items, file <> Some (Document (JArray items))) ->
  import_db (importHistoryAsFile db file) = db.
Proof.
  intros Hfile. unfold importHistoryAsFile.
  destruct file as [[|history]|]; simpl; try reflexivity.
  destruct history as [| | |s|items|]; simpl; try reflexivity.
  - pose proof (import_loop_characters s) as Hs.
    destruct (import_loop (characters s)) as [placed thrown]. simpl in Hs. subst placed.
    unfold transaction. simpl.
    destruct thrown; simpl; apply with_history_same.
  - exfalso. now apply (Hfile items).
Qed.

Lemma importHistoryAsFile_not_an_array_witness :
  (forall items, Some (Document (JObject [("uid", JString "k1")]))
                 <> Some (Document (JArray items)))
  /\ import_db (importHistoryAsFile (open_db [Sample.rhapsody])
                  (Some (Document (JObject [("uid", JString "k1")]))))
     = open_db [Sample.rhapsody].
Proof.
  assert (H : forall items, Some (Document (JObject [("uid", JString "k1")]))
                            <> Some (Document (JArray items))).
  { intros items. discriminate. }
  split; [exact H|].
  exact (importHistoryAsFile_not_an_array (open_db [Sample.rhapsody]) _ H).
Defined.

(** ** What [isValidSong] guarantees *)

Lemma and_then_true (a b : completion bool) :
  a &&& b = Normal true -> a = Normal true /\ b = Normal true.
Proof.
  unfold and_then, bind. destruct a as [[|]|e]; try discriminate. auto.
Qed.

Lemma typeof_string (v : option json) :
  (typeof v =? "string") = true -> exists s, v = Some (JString s).
Proof.
  destruct v as [[| | |s| |]|]; simpl; try discriminate. eauto.
Qed.

Lemma typeof_number (v : option json) :
  (typeof v =? "number") = true -> exists q, v = Some (JNumber q).
Proof.
  destruct v as [[| |q| | |]|]; simpl; try discriminate. eauto.
Qed.

Lemma Array_isArray_true (v : option json) :
  Array_isArray v = true -> exists items, v = Some (JArray items).
Proof.
  destruct v as [[| | | |items|]|]; simpl; try discriminate. eauto.
Qed.

Lemma every_true (callback : json -> completion bool) (items : list json) :
  every callback items = Normal true ->
  Forall (fun x => callback x = Normal true) items.
Proof.
  induction items as [|x rest IH]; simpl; [constructor|].
  unfold bind. destruct (callback x) as [[|]|e] eqn:E; try discriminate.
  intros H. constructor; auto.
Qed.

Lemma Normal_inj {A : Type} (a b : A) : Normal a = Normal b -> a = b.
Proof. now intros H; injection H. Qed.

(** X13: an element that passes [isValidSong] is an object with every
    property of the [Song] interface, typed as the interface says: the
    three strings, the two numbers, the album with its name and uri, the
    arrays of artists and images with their strings, and a metadata
    object.  The row stored for it holds these very values. *)
Theorem isValidSong_sound (song : json) :
  isValidSong song = Normal true ->
  (exists fields, song = JObject fields)
  /\ field song "uid" = Some (JString (uid (asSong song)))
  /\ field song "uri" = Some (JString (uri (asSong song)))
  /\ field song "name" = Some (JString (name (asSong song)))
  /\ get_opt (field song "duration") "milliseconds"
     = Some (JNumber (duration_milliseconds (asSong song)))
  /\ field song "listenDate" = Some (JNumber (listenDate (asSong song)))
  /\ (exists n u,
        get_opt (field song "album") "name" = Some (JString n)
        /\ get_opt (field song "album") "uri" = Some (JString u)
        /\ album (asSong song) = {| album_name := Some n; album_uri := Some u |})
  /\ (exists items,
        field song "artists" = Some (JArray items)
        /\ Forall (fun a => exists n u, get a "name" = Normal (Some (JString n))
                                        /\ get a "uri" = Normal (Some (JString u)))
                  items)
  /\ (exists items,
        field song "images" = Some (JArray items)
        /\ Forall (fun i => exists l u, get i "label" = Normal (Some (JString l))
                                        /\ get i "url" = Normal (Some (JString u)))
                  items)
  /\ interface_typed (asSong song).
Proof.
  intros H.
  destruct song as [| | | | |fields]; try discriminate H.
  unfold isValidSong, get in H. cbn [bind] in H.
  repeat match type of H with
         | _ &&& _ = Normal true =>
             let H1 := fresh "V" in
             apply and_then_true in H as [H H1]
         end.
  apply Normal_inj, typeof_string in H as [k Hk].
  apply Normal_inj, typeof_string in V10 as [u Hu].
  apply Normal_inj, typeof_string in V9 as [n Hn].
  apply Normal_inj, typeof_number in V8 as [d Hd].
  apply Normal_inj, typeof_string in V7 as [an Han].
  apply Normal_inj, typeof_string in V6 as [au Hau].
  apply Normal_inj, Array_isArray_true in V5 as [ars Hars].
  apply Normal_inj, typeof_number in V3 as [t Ht].
  apply Normal_inj, Array_isArray_true in V2 as [ims Hims].
  apply Normal_inj in V0, V.
  rewrite Hars in V4. rewrite Hims in V1. simpl in V4, V1.
  apply every_true in V4, V1.
  unfold asSong, field, interface_typed. simpl.
  rewrite Hk, Hu, Hn, Hd, Han, Hau, Ht, Hars, Hims. simpl.
  split; [eauto|]. do 5 (split; [reflexivity|]).
  split; [eauto|]. split; [|split].
  - exists ars. split; [reflexivity|].
    eapply Forall_impl; [|exact V4]. intros a Ha. cbv beta in Ha.
    apply and_then_true in Ha as [Ha1 Ha2].
    destruct a as [| | | | |f]; try discriminate.
    apply Normal_inj, typeof_string in Ha1 as [x Hx].
    apply Normal_inj, typeof_string in Ha2 as [y Hy].
    exists x, y. simpl. now rewrite Hx, Hy.
  - exists ims. split; [reflexivity|].
    eapply Forall_impl; [|exact V1]. intros a Ha. cbv beta in Ha.
    apply and_then_true in Ha as [Ha1 Ha2].
    destruct a as [| | | | |f]; try discriminate.
    apply Normal_inj, typeof_string in Ha1 as [x Hx].
    apply Normal_inj, typeof_string in Ha2 as [y Hy].
    exists x, y. simpl. now rewrite Hx, Hy.
  - split; [eauto|].
    destruct (own_property "metadata" fields) as [[| | | | |]|];
      simpl in *; try discriminate; split; try reflexivity; discriminate.
Qed.

Lemma isValidSong_sound_witness :
  isValidSong (Song_toJSON Sample.odd) = Normal true
  /\ field (Song_toJSON Sample.odd) "uid"
     = Some (JString (uid (asSong (Song_toJSON Sample.odd)))).
Proof.
  assert (H : isValidSong (Song_toJSON Sample.odd) = Normal true) by reflexivity.
  split; [exact H|].
  exact (proj1 (proj2 (isValidSong_sound (Song_toJSON Sample.odd) H))).
Defined.

(** ** Export, then import *)

(** Two stores of the same rows are the same store. *)
Lemma store_rows_unique (l l' : list Song) :
  StronglySorted uid_lt l -> StronglySorted uid_lt l' -> Permutation l l' ->
  l = l'.
Proof.
  intros Hl. revert l'. induction Hl as [|x xs Hs IH Hx]; intros l' Hl' Hperm.
  - now apply Permutation_nil in Hperm.
  - destruct Hl' as [|y ys Hs' Hy].
    + symmetry in Hperm. now apply Permutation_nil in Hperm.
    + assert (x = y).
      { assert (Hxin : In x (y :: ys)) by (eapply Permutation_in; [exact Hperm|now left]).
        assert (Hyin : In y (x :: xs)).
        { eapply Permutation_in; [symmetry; exact Hperm|now left]. }
        destruct Hxin as [->|Hxin]; [reflexivity|].
        destruct Hyin as [->|Hyin]; [reflexivity|].
        rewrite Forall_forall in Hx, Hy.
        exfalso. apply (uid_lt_irrefl x). unfold uid_lt.
        eapply compare_Lt_trans; [apply (Hx y Hyin) | apply (Hy x Hxin)]. }
      subst y. f_equal. apply IH; [assumption|].
      eapply Permutation_cons_inv; exact Hperm.
Qed.

Lemma map_asSong_Song_toJSON (rows : list Song) :
  Forall interface_typed rows -> map asSong (map Song_toJSON rows) = rows.
Proof.
  induction 1 as [|x rest [[n [u Hx]] _] Hrest IH]; simpl; [reflexivity|].
  now rewrite (asSong_Song_toJSON x n u Hx), IH.
Qed.

Lemma Forall_isValidSong_Song_toJSON (rows : list Song) :
  Forall interface_typed rows ->
  Forall (fun j => isValidSong j = Normal true) (map Song_toJSON rows).
Proof.
  induction 1 as [|x rest [[n [u Hx]] [Ht Hm]] Hrest IH]; simpl; constructor.
  - now apply (isValidSong_Song_toJSON x n u).
  - assumption.
Qed.

(** X14: the file that the export writes for a store whose rows are
    typed as the [Song] interface says, imported into the empty store,
    gives that very store back, and the import says "History
    imported". *)
Theorem export_then_import (rows : list Song) :
  store_ok rows -> rows <> [] -> Forall interface_typed rows ->
  exists document : json,
    export_download (exportHistoryAsFile (open_db rows))
    = Some ("spicetify-history-download", document)
    /\ importHistoryAsFile (open_db []) (Some (Document document))
       = {| import_db := open_db rows;
            import_notifications := ["Importing history..."; "History imported"] |}.
Proof.
  intros Hok Hne Htyped.
  set (sorted := Array_sort (fun a b => listenDate a - listenDate b) rows).
  assert (Hperm : Permutation rows sorted) by apply Array_sort_Permutation.
  assert (Htyped' : Forall interface_typed sorted).
  { apply Forall_forall. intros x Hx. rewrite Forall_forall in Htyped.
    apply Htyped. eapply Permutation_in; [symmetry; exact Hperm|exact Hx]. }
  exists (JArray (map Song_toJSON sorted)). split.
  - unfold exportHistoryAsFile. simpl.
    destruct rows as [|x rest]; [contradiction|reflexivity].
  - destruct (import_fresh_records [] (map Song_toJSON sorted))
      as [rows' [Hrun Hperm']].
    + now apply Forall_isValidSong_Song_toJSON.
    + rewrite map_asSong_Song_toJSON, app_nil_r by assumption.
      eapply Permutation_NoDup; [apply Permutation_map; exact Hperm|].
      apply sorted_NoDup_uid, Hok.
    + rewrite map_asSong_Song_toJSON, app_nil_r by assumption.
      eapply Permutation_NoDup; [apply Permutation_map; exact Hperm|]. apply Hok.
    + rewrite Hrun. do 2 f_equal.
      rewrite map_asSong_Song_toJSON, app_nil_r in Hperm' by assumption.
      symmetry. apply store_rows_unique.
      * apply Hok.
      * assert (Hok' : store_ok (history (import_db
                  (importHistoryAsFile (open_db [])
                     (Some (Document (JArray (map Song_toJSON sorted)))))))).
        { apply import_keeps_store_ok. split; constructor. }
        rewrite Hrun in Hok'. apply Hok'.
      * now rewrite Hperm.
Qed.

Lemma sample_interface_typed :
  Forall interface_typed [Sample.rhapsody; Sample.love].
Proof.
  repeat constructor; try (now eexists; eexists); discriminate.
Qed.

Lemma export_then_import_witness :
  store_ok [Sample.rhapsody; Sample.love]
  /\ [Sample.rhapsody; Sample.love] <> []
  /\ Forall interface_typed [Sample.rhapsody; Sample.love]
  /\ exists document : json,
       export_download (exportHistoryAsFile (open_db [Sample.rhapsody; Sample.love]))
       = Some ("spicetify-history-download", document)
       /\ importHistoryAsFile (open_db []) (Some (Document document))
          = {| import_db := open_db [Sample.rhapsody; Sample.love];
               import_notifications :=
                 ["Importing history..."; "History imported"] |}.
Proof.
  assert (Hne : [Sample.rhapsody; Sample.love] <> []) by discriminate.
  split; [exact sample_store_ok|]. split; [exact Hne|].
  split; [exact sample_interface_typed|].
  exact (export_then_import [Sample.rhapsody; Sample.love]
           sample_store_ok Hne sample_interface_typed).
Defined.

(** ** The order of the exported file *)

Lemma sort_insert_export_order (x : Song) (l : list Song) :
  StronglySorted export_order l -> Forall (uid_lt x) l ->
  StronglySorted export_order (sort_insert (by_number listenDate) x l).
Proof.
  induction 1 as [|y rest Hs IH Hall]; simpl; intros Hx.
  - repeat constructor.
  - inversion Hx as [|? ? Hxy Hxrest]; subst.
    destruct (Qle_bool (by_number listenDate x y) 0) eqn:E.
    + apply by_number_le in E.
      assert (Hlex : forall z, listenDate x <= listenDate z -> uid_lt x z ->
                               export_order x z).
      { intros z Hle Hlt. unfold export_order.
        destruct (Qlt_le_dec (listenDate x) (listenDate z)) as [H|H]; [now left|].
        right. split; [now apply Qle_antisym | assumption]. }
      constructor; [now constructor|]. constructor; [now apply Hlex|].
      apply Forall_forall. intros z Hz.
      rewrite Forall_forall in Hall, Hxrest. apply Hlex; [|now apply Hxrest].
      eapply Qle_trans; [exact E|].
      destruct (Hall z Hz) as [H|[H _]]; [now apply Qlt_le_weak|].
      rewrite H. apply Qle_refl.
    + assert (Hyx : listenDate y < listenDate x).
      { apply Qnot_le_lt. intros Hle. apply by_number_le in Hle. congruence. }
      constructor; [now apply IH|]. apply Forall_forall. intros z Hz.
      apply (Permutation_in _
               (Permutation_sym
                  (sort_insert_Permutation (by_number listenDate) x rest))) in Hz.
      destruct Hz as [<-|Hz]; [now left|].
      rewrite Forall_forall in Hall. auto.
Qed.

Lemma Array_sort_export_order (rows : list Song) :
  StronglySorted uid_lt rows ->
  StronglySorted export_order (Array_sort (by_number listenDate) rows).
Proof.
  induction 1 as [|x rest Hs IH Hall]; simpl; [constructor|].
  apply sort_insert_export_order; [assumption|].
  apply Forall_forall. intros z Hz. rewrite Forall_forall in Hall. apply Hall.
  eapply Permutation_in; [symmetry; apply Array_sort_Permutation|exact Hz].
Qed.

(** X15: the rows of the exported file are in one fixed order: by
    [listenDate], and rows of one [listenDate] by uid. *)
Theorem exportHistoryAsFile_order (rows : list Song) :
  store_ok rows -> rows <> [] ->
  exists sorted : list Song,
    export_download (exportHistoryAsFile (open_db rows))
    = Some ("spicetify-history-download", JArray (map Song_toJSON sorted))
    /\ Permutation rows sorted
    /\ StronglySorted export_order sorted.
Proof.
  intros [Hs _] Hne.
  exists (Array_sort (by_number listenDate) rows). split; [|split].
  - unfold exportHistoryAsFile. simpl.
    destruct rows as [|x rest]; [contradiction|reflexivity].
  - apply Array_sort_Permutation.
  - now apply Array_sort_export_order.
Qed.

Lemma exportHistoryAsFile_order_witness :
  store_ok [Sample.rhapsody; Sample.love]
  /\ [Sample.rhapsody; Sample.love] <> []
  /\ exists sorted : list Song,
       export_download (exportHistoryAsFile (open_db [Sample.rhapsody; Sample.love]))
       = Some ("spicetify-history-download", JArray (map Song_toJSON sorted))
       /\ Permutation [Sample.rhapsody; Sample.love] sorted
       /\ StronglySorted export_order sorted.
Proof.
  assert (Hne : [Sample.rhapsody; Sample.love] <> []) by discriminate.
  split; [exact sample_store_ok|]. split; [exact Hne|].
  exact (exportHistoryAsFile_order [Sample.rhapsody; Sample.love]
           sample_store_ok Hne).
Defined.

(** ** The sorted view *)

Lemma StronglySorted_app {A : Type} (R : A -> A -> Prop) (l l' : list A) :
  StronglySorted R l -> StronglySorted R l' ->
  (forall x y, In x l -> In y l' -> R x y) ->
  StronglySorted R (l ++ l').
Proof.
  induction 1 as [|x rest Hs IH Hall]; simpl; intros Hl' Hcross; [assumption|].
  constructor.
  - apply IH; [assumption|]. intros a b Ha Hb. apply Hcross; [now right|assumption].
  - apply Forall_forall. intros y Hy. apply in_app_or in Hy as [Hy|Hy].
    + rewrite Forall_forall in Hall. auto.
    + apply Hcross; [now left|assumption].
Qed.

Lemma StronglySorted_rev {A : Type} (R : A -> A -> Prop) (l : list A) :
  StronglySorted R l -> StronglySorted (fun a b => R b a) (rev l).
Proof.
  induction 1 as [|x rest Hs IH Hall]; simpl; [constructor|].
  apply StronglySorted_app; [assumption | repeat constructor|].
  intros a b Ha [<-|[]]. apply in_rev in Ha. rewrite Forall_forall in Hall. auto.
Qed.

Lemma Array_sort_unordered {A : Type} (compareFn : A -> A -> Q) (l : list A) :
  (forall a b, compareFn a b == 0) -> Array_sort compareFn l = l.
Proof.
  intros Hzero. induction l as [|x rest IH]; simpl; [reflexivity|].
  rewrite IH. destruct rest as [|y rest']; simpl; [reflexivity|].
  assert (H : Qle_bool (compareFn x y) 0 = true).
  { apply Qle_bool_iff. rewrite Hzero. apply Qle_refl. }
  now rewrite H.
Qed.

Section SortedView.
Variable localeCompare : string -> string -> Q.

Lemma sortSongs_Permutation (songs : list Song) (sortConfig : SortConfig) :
  Permutation songs (sortSongs localeCompare songs sortConfig).
Proof.
  unfold sortSongs. destruct (negb (ascending sortConfig)).
  - rewrite <- Permutation_rev. apply Array_sort_Permutation.
  - apply Array_sort_Permutation.
Qed.

(** X16: sorted by "date" the view is a rearrangement of the rows in
    the order of [listenDate], oldest first when ascending and newest
    first when descending; likewise by "duration". *)
Theorem sortSongs_by_number (songs : list Song) :
  (Permutation songs
     (sortSongs localeCompare songs {| key := "date"; ascending := true |})
   /\ StronglySorted (fun a b => listenDate a <= listenDate b)
        (sortSongs localeCompare songs {| key := "date"; ascending := true |}))
  /\ (Permutation songs
        (sortSongs localeCompare songs {| key := "date"; ascending := false |})
      /\ StronglySorted (fun a b => listenDate b <= listenDate a)
           (sortSongs localeCompare songs {| key := "date"; ascending := false |}))
  /\ StronglySorted (fun a b => duration_milliseconds a <= duration_milliseconds b)
       (sortSongs localeCompare songs {| key := "duration"; ascending := true |})
  /\ StronglySorted (fun a b => duration_milliseconds b <= duration_milliseconds a)
       (sortSongs localeCompare songs {| key := "duration"; ascending := false |}).
Proof.
  split; [|split; [|split]].
  - split; [apply sortSongs_Permutation|]. apply (Array_sort_ordered listenDate).
  - split; [apply sortSongs_Permutation|].
    apply (StronglySorted_rev (ordered_by listenDate)).
    apply (Array_sort_ordered listenDate).
  - apply (Array_sort_ordered duration_milliseconds).
  - apply (StronglySorted_rev (ordered_by duration_milliseconds)).
    apply (Array_sort_ordered duration_milliseconds).
Qed.

(** X17: with a key that is none of "name", "album", "date" and
    "duration" the rows keep the order they came in when ascending, and
    come reversed when descending. *)
Theorem sortSongs_unknown_key (songs : list Song) (k : string) :
  k <> "name" -> k <> "album" -> k <> "date" -> k <> "duration" ->
  sortSongs localeCompare songs {| key := k; ascending := true |} = songs
  /\ sortSongs localeCompare songs {| key := k; ascending := false |} = rev songs.
Proof.
  intros H1 H2 H3 H4.
  assert (Hzero : forall asc a b,
             compareSongs localeCompare {| key := k; ascending := asc |} a b == 0).
  { intros asc a b. unfold compareSongs. simpl.
    apply String.eqb_neq in H1, H2, H3, H4. rewrite H1, H2, H3, H4. reflexivity. }
  unfold sortSongs. simpl.
  rewrite !Array_sort_unordered by apply Hzero. auto.
Qed.

(** X18: a click on the header of the column by which the view is
    sorted reverses the view; a click on another header sorts
    ascending; two clicks on one header bring the configuration back. *)
Theorem sortByColumn_toggles (songs : list Song) (sortConfig : SortConfig)
        (k : string) :
  sortSongs localeCompare songs (sortByColumn (key sortConfig) sortConfig)
  = rev (sortSongs localeCompare songs sortConfig)
  /\ (key sortConfig <> k -> sortByColumn k sortConfig
                             = {| key := k; ascending := true |})
  /\ sortByColumn (key sortConfig)
       (sortByColumn (key sortConfig) sortConfig) = sortConfig.
Proof.
  destruct sortConfig as [k0 asc]. unfold sortByColumn. simpl.
  rewrite String.eqb_refl. split; [|split].
  - unfold sortSongs. simpl. destruct asc; simpl; [reflexivity|].
    now rewrite rev_involutive.
  - intros Hk. apply String.eqb_neq in Hk. now rewrite Hk.
  - now rewrite negb_involutive.
Qed.

End SortedView.

Lemma sortSongs_unknown_key_witness :
  "artist" <> "name" /\ "artist" <> "album" /\ "artist" <> "date"
  /\ "artist" <> "duration"
  /\ sortSongs Sample.codeUnitCompare [Sample.love; Sample.rhapsody]
               {| key := "artist"; ascending := true |}
     = [Sample.love; Sample.rhapsody].
Proof.
  assert (H1 : "artist" <> "name") by discriminate.
  assert (H2 : "artist" <> "album") by discriminate.
  assert (H3 : "artist" <> "date") by discriminate.
  assert (H4 : "artist" <> "duration") by discriminate.
  repeat (split; [assumption|]).
  exact (proj1 (sortSongs_unknown_key Sample.codeUnitCompare
                  [Sample.love; Sample.rhapsody] "artist" H1 H2 H3 H4)).
Defined.

Lemma sortByColumn_toggles_witness :
  key {| key := "date"; ascending := false |} <> "name"
  /\ sortByColumn "name" {| key := "date"; ascending := false |}
     = {| key := "name"; ascending := true |}.
Proof.
  assert (H : key {| key := "date"; ascending := false |} <> "name") by discriminate.
  split; [exact H|].
  exact (proj1 (proj2 (sortByColumn_toggles Sample.codeUnitCompare []
                         {| key := "date"; ascending := false |} "name")) H).
Defined.

(** ** Search, further *)

Lemma append_assoc (a b c : string) :
  ((a ++ b) ++ c)%string = (a ++ (b ++ c))%string.
Proof. induction a as [|x a IH]; simpl; [reflexivity|]. now rewrite IH. Qed.

Lemma substring_of_trans (q q' s : string) :
  substring_of q q' -> substring_of q' s -> substring_of q s.
Proof.
  intros [a [b ->]] [pre [post ->]].
  exists (pre ++ a)%string, (b ++ post)%string.
  now rewrite !append_assoc.
Qed.

Section SearchFurther.

Variable toLowerCase : string -> string.
Hypothesis toLowerCase_ascii :
  forall s : string, is_ascii s = true -> toLowerCase s = lowerASCII s.

Lemma song_matches_narrows (pre q post : string) (song : Song) :
  is_ascii pre = true -> is_ascii q = true -> is_ascii post = true ->
  song_matches (occurs_lowered toLowerCase) (pre ++ q ++ post) song ->
  song_matches (occurs_lowered toLowerCase) q song.
Proof.
  intros Hpre Hq Hpost.
  assert (Hall : is_ascii (pre ++ q ++ post) = true).
  { now rewrite !is_ascii_app, Hpre, Hq, Hpost. }
  assert (Hsub : forall s, occurs_lowered toLowerCase (pre ++ q ++ post) s ->
                           occurs_lowered toLowerCase q s).
  { intros s. unfold occurs_lowered. apply substring_of_trans.
    rewrite (toLowerCase_ascii _ Hall), (toLowerCase_ascii _ Hq).
    exists (lowerASCII pre), (lowerASCII post). now rewrite !lowerASCII_app. }
  intros [H|[[n [Hn H]]|[a [Ha H]]]].
  - left. auto.
  - right; left. eauto.
  - right; right. eauto.
Qed.

(** X19: for a query of ASCII text, typing more never brings a row
    back: a row kept for a query is kept for every part of that query.
    Two ASCII queries that differ only in the case of their letters keep
    the same rows. *)
Theorem handleSearchChange_narrows (songs : list Song) (pre q post q' : string) :
  is_ascii pre = true -> is_ascii q = true -> is_ascii post = true ->
  (forall song,
      In song (handleSearchChange toLowerCase songs (pre ++ q ++ post)) ->
      In song (handleSearchChange toLowerCase songs q))
  /\ (is_ascii q' = true -> same_letters q q' ->
      handleSearchChange toLowerCase songs q
      = handleSearchChange toLowerCase songs q').
Proof.
  intros Hpre Hq Hpost. split.
  - intros song. unfold handleSearchChange.
    rewrite !filter_In, !search_test_iff.
    intros [Hin Hm]. split; [assumption|].
    now apply (song_matches_narrows pre q post).
  - intros Hq' Hsame. unfold handleSearchChange.
    rewrite (toLowerCase_ascii q Hq), (toLowerCase_ascii q' Hq').
    apply lowerASCII_same in Hsame. now rewrite Hsame.
Qed.

End SearchFurther.

Lemma handleSearchChange_narrows_witness :
  (forall s : string, is_ascii s = true -> lowerASCII s = lowerASCII s)
  /\ is_ascii "Rhap" = true /\ is_ascii "sod" = true /\ is_ascii "y" = true
  /\ is_ascii "SOD" = true /\ same_letters "sod" "SOD"
  /\ In Sample.rhapsody
        (handleSearchChange lowerASCII [Sample.rhapsody; Sample.love] "Rhapsody")
  /\ In Sample.rhapsody
        (handleSearchChange lowerASCII [Sample.rhapsody; Sample.love] "sod")
  /\ handleSearchChange lowerASCII [Sample.rhapsody; Sample.love] "sod"
     = handleSearchChange lowerASCII [Sample.rhapsody; Sample.love] "SOD".
Proof.
  assert (H : In Sample.rhapsody
                (handleSearchChange lowerASCII [Sample.rhapsody; Sample.love]
                                    "Rhapsody")).
  { simpl. auto. }
  assert (Hsame : same_letters "sod" "SOD").
  { simpl. unfold same_letter. repeat split; auto. }
  split; [exact lowerASCII_host|].
  do 4 (split; [reflexivity|]). split; [exact Hsame|]. split; [exact H|]. split.
  - exact (proj1 (handleSearchChange_narrows lowerASCII lowerASCII_host
                    [Sample.rhapsody; Sample.love] "Rhap" "sod" "y" "SOD"
                    eq_refl eq_refl eq_refl) Sample.rhapsody H).
  - exact (proj2 (handleSearchChange_narrows lowerASCII lowerASCII_host
                    [Sample.rhapsody; Sample.love] "Rhap" "sod" "y" "SOD"
                    eq_refl eq_refl eq_refl) eq_refl Hsame).
Defined.

(** ** The cells of a row *)

Lemma seconds_bound (ms : N) : ((ms mod 60000 + 500) / 1000 <= 60)%N.
Proof.
  assert (H : (ms mod 60000 < 60000)%N) by (apply N.mod_lt; discriminate).
  generalize dependent (ms mod 60000)%N. intros r H.
  apply N.lt_succ_r. apply N.Div0.div_lt_upper_bound.
  change (1000 * N.succ 60)%N with 61000%N. lia.
Qed.

Lemma seconds_sixty (ms : N) :
  ((ms mod 60000 + 500) / 1000 = 60 <-> 59500 <= ms mod 60000)%N.
Proof.
  pose proof (seconds_bound ms) as Hb.
  assert (H : (ms mod 60000 < 60000)%N) by (apply N.mod_lt; discriminate).
  generalize dependent (ms mod 60000)%N. intros r Hb H.
  split; intros Hs.
  - destruct (N.le_gt_cases 59500 r) as [Hle|Hgt]; [assumption|].
    assert (Hlt : ((r + 500) / 1000 < 60)%N).
    { apply N.Div0.div_lt_upper_bound. lia. }
    lia.
  - assert (60 <= (r + 500) / 1000)%N; [|lia].
    apply N.div_le_lower_bound; [discriminate|lia].
Qed.

Lemma two_digits (s : N) :
  (s <= 60)%N ->
  String.length ((if (s <? 10)%N then "0" else "") ++ Number_toString s)%string = 2%nat
  /\ (((if (s <? 10)%N then "0" else "") ++ Number_toString s)%string = "60"
      <-> s = 60%N).
Proof.
  intros H.
  assert (Hcases : In s (map N.of_nat (seq 0 61))).
  { apply in_map_iff. exists (N.to_nat s). split; [apply N2Nat.id|].
    apply in_seq. lia. }
  simpl in Hcases.
  repeat (destruct Hcases as [<-|Hcases];
          [split; [reflexivity | split; [discriminate || reflexivity
                                        | discriminate || reflexivity]]|]).
  contradiction.
Qed.

(** X20: [formatDuration] writes the minutes, a colon and two digits of
    seconds.  The seconds are rounded and the minutes are not, so the
    two digits read 60 exactly when the duration is within half a second
    below a whole minute. *)
Theorem formatDuration_shape (ms : N) :
  exists ss : string,
    formatDuration ms = (Number_toString (ms / 60000) ++ ":" ++ ss)%string
    /\ String.length ss = 2%nat
    /\ (ss = "60" <-> (59500 <= ms mod 60000)%N).
Proof.
  unfold formatDuration.
  destruct (two_digits _ (seconds_bound ms)) as [Hlen Hsixty].
  eexists. split; [reflexivity|]. split; [exact Hlen|].
  rewrite Hsixty. apply seconds_sixty.
Qed.

Lemma length_append (a b : string) :
  String.length (a ++ b) = (String.length a + String.length b)%nat.
Proof. induction a as [|c a IH]; simpl; [reflexivity|]. now rewrite IH. Qed.

Lemma substring_prefix (n : nat) (s : string) :
  (n <= String.length s)%nat ->
  String.length (String.substring 0 n s) = n
  /\ exists rest, s = (String.substring 0 n s ++ rest)%string.
Proof.
  revert s. induction n as [|n IH]; intros s Hn.
  - destruct s; simpl; split; try reflexivity; eexists; reflexivity.
  - destruct s as [|c s]; simpl in *; [lia|].
    destruct (IH s) as [Hlen [rest Hrest]]; [lia|].
    split; [now rewrite Hlen|]. exists rest. now rewrite <- Hrest.
Qed.

(** X21: the title cell shows a title of at most 50 characters as it
    is, and of a longer one its first 50 characters and three dots:
    never more than 53 characters. *)
Theorem songNameCell_bound (title : string) :
  (String.length (songNameCell title) <= 53)%nat
  /\ ((String.length title <= 50)%nat -> songNameCell title = title)
  /\ ((50 < String.length title)%nat ->
      exists shown rest,
        title = (shown ++ rest)%string /\ String.length shown = 50%nat
        /\ songNameCell title = (shown ++ "...")%string).
Proof.
  unfold songNameCell.
  destruct (Nat.ltb 50 (String.length title)) eqn:E.
  - apply Nat.ltb_lt in E.
    destruct (substring_prefix 50 title) as [Hlen [rest Hrest]]; [lia|].
    split; [|split].
    + rewrite length_append, Hlen. simpl. lia.
    + lia.
    + intros _. exists (String.substring 0 50 title), rest. auto.
  - apply Nat.ltb_ge in E. split; [lia|]. split; [reflexivity|lia].
Qed.

Lemma songNameCell_bound_witness :
  (String.length "Bohemian Rhapsody" <= 50)%nat
  /\ songNameCell "Bohemian Rhapsody" = "Bohemian Rhapsody".
Proof.
  assert (H : (String.length "Bohemian Rhapsody" <= 50)%nat) by (simpl; lia).
  split; [exact H|].
  exact (proj1 (proj2 (songNameCell_bound "Bohemian Rhapsody")) H).
Defined.

(** ** The component *)

Section ComponentFacts.
Variable localeCompare : string -> string -> Q.
Variable toLowerCase : string -> string.

(** X22: [fetchHistory] shows every row of the store, sorted as the
    configuration says, also when a search is in the box: the filtered
    list is set to the whole list and the query is left as it is.  When
    the store cannot be read the state stays as it was. *)
Theorem fetchHistory_shows_all (rows : list Song) (app : AppState)
        (value message : string) :
  let app' :=
    fetchHistory localeCompare (open_db rows) (searchChanged toLowerCase app value) in
  app_songs app' = sortSongs localeCompare rows (app_sortConfig app)
  /\ app_filteredSongs app' = app_songs app'
  /\ Permutation rows (app_filteredSongs app')
  /\ app_searchQuery app' = toLowerCase value
  /\ fetchHistory localeCompare {| fault := Some message; history := rows |} app
     = app.
Proof.
  simpl. repeat split. apply sortSongs_Permutation.
Qed.

(** X23: once the component has its database, deleting a row leaves the
    store without it and the view showing the rows that are left, and
    clearing leaves both empty; before that, neither handler does
    anything. *)
Theorem handlers_refresh_view (rows : list Song) (app : AppState) (k : string) :
  (app_db app = true ->
   fst (handleDeleteSong localeCompare (open_db rows) app k)
   = open_db (delete k rows)
   /\ (forall s,
         In s (app_filteredSongs
                 (snd (handleDeleteSong localeCompare (open_db rows) app k)))
         <-> In s rows /\ uid s <> k)
   /\ fst (handleClearHistory localeCompare (open_db rows) app) = open_db []
   /\ app_filteredSongs (snd (handleClearHistory localeCompare (open_db rows) app))
      = [])
  /\ (app_db app = false ->
      handleDeleteSong localeCompare (open_db rows) app k = (open_db rows, app)
      /\ handleClearHistory localeCompare (open_db rows) app = (open_db rows, app)).
Proof.
  unfold handleDeleteSong, handleClearHistory. split; intros ->; simpl.
  - split; [reflexivity|]. split; [|split].
    + intros s. split.
      * intros H.
        apply (Permutation_in _ (Permutation_sym
                 (sortSongs_Permutation localeCompare (delete k rows)
                    (app_sortConfig app)))) in H.
        unfold delete in H. apply filter_In in H as [H1 H2].
        apply negb_true_iff, String.eqb_neq in H2. auto.
      * intros [H1 H2].
        apply (Permutation_in _ (sortSongs_Permutation localeCompare (delete k rows)
                                   (app_sortConfig app))).
        unfold delete. apply filter_In. split; [assumption|].
        now apply negb_true_iff, String.eqb_neq.
    + reflexivity.
    + unfold sortSongs. simpl. now destruct (negb (ascending (app_sortConfig app))).
  - auto.
Qed.

End ComponentFacts.

Lemma handlers_refresh_view_witness :
  app_db Sample.ready = true
  /\ fst (handleDeleteSong Sample.codeUnitCompare
            (open_db [Sample.rhapsody; Sample.love]) Sample.ready "k1")
     = open_db (delete "k1" [Sample.rhapsody; Sample.love]).
Proof.
  split; [reflexivity|].
  exact (proj1 (proj1 (handlers_refresh_view Sample.codeUnitCompare
                         [Sample.rhapsody; Sample.love] Sample.ready "k1")
                  eq_refl)).
Defined.

(** ** The listener *)

Lemma listen_session (db : IDBDatabase) (events : list (option PlayerItem * Q)) :
  listen db events = session db (played events).
Proof.
  unfold listen, session, played. revert db.
  induction events as [|[item now] rest IH]; intros db; simpl; [reflexivity|].
  rewrite fold_left_app, IH. f_equal.
  unfold onSongChange. simpl. destruct item as [song|]; [|reflexivity].
  now destruct (item_type song =? "track").
Qed.

(** X24: the listener saves the tracks and nothing else: the store
    after a run of events is the store after the session of its track
    records; from the empty store it has no uri and no uid twice, and
    every row of it is the record of a track event, with the time of a
    track event as its [listenDate]. *)
Theorem listen_saves_tracks (events : list (option PlayerItem * Q)) :
  (forall db, listen db events = session db (played events))
  /\ NoDup (map uri (history (listen (open_db []) events)))
  /\ NoDup (map uid (history (listen (open_db []) events)))
  /\ (forall row, In row (history (listen (open_db []) events)) ->
        exists song now song' now',
          In (Some song, now) events /\ item_type song = "track"
          /\ In (Some song', now') events /\ item_type song' = "track"
          /\ row = set_listenDate (currentSong_of song now) now').
Proof.
  assert (Hplayed : forall p, In p (played events) ->
             exists song now, In (Some song, now) events
                              /\ item_type song = "track"
                              /\ p = currentSong_of song now).
  { intros p Hp. unfold played in Hp. apply in_flat_map in Hp as [[item now] [He Hp]].
    simpl in Hp. destruct item as [song|]; [|contradiction].
    destruct (item_type song =? "track") eqn:E; [|contradiction].
    destruct Hp as [<-|[]]. apply String.eqb_eq in E. eauto. }
  split; [intros db; apply listen_session|].
  rewrite listen_session.
  assert (Hok : store_ok (history (session (open_db []) (played events)))).
  { apply session_store_ok. split; constructor. }
  split; [apply Hok|]. split; [apply sorted_NoDup_uid, Hok|].
  intros row Hrow.
  destruct (session_rows_from_plays _ _ Hrow) as [p [q [Hp [Hq ->]]]].
  destruct (Hplayed p Hp) as [song [now [He [Ht ->]]]].
  destruct (Hplayed q Hq) as [song' [now' [He' [Ht' ->]]]].
  exists song, now, song', now'. auto.
Qed.

Lemma listen_saves_tracks_witness :
  In (currentSong_of Sample.rhapsody_item 1000)
     (history (listen (open_db [])
                      [(Some Sample.episode_item, 500);
                       (Some Sample.rhapsody_item, 1000); (None, 1200)]))
  /\ exists song now song' now',
       In (Some song, now)
          [(Some Sample.episode_item, 500);
           (Some Sample.rhapsody_item, 1000); (None, 1200)]
       /\ item_type song = "track"
       /\ In (Some song', now')
             [(Some Sample.episode_item, 500);
              (Some Sample.rhapsody_item, 1000); (None, 1200)]
       /\ item_type song' = "track"
       /\ currentSong_of Sample.rhapsody_item 1000
          = set_listenDate (currentSong_of song now) now'.
Proof.
  assert (H : In (currentSong_of Sample.rhapsody_item 1000)
                (history (listen (open_db [])
                                 [(Some Sample.episode_item, 500);
                                  (Some Sample.rhapsody_item, 1000); (None, 1200)]))).
  { simpl. auto. }
  split; [exact H|].
  exact (proj2 (proj2 (proj2 (listen_saves_tracks
                                [(Some Sample.episode_item, 500);
                                 (Some Sample.rhapsody_item, 1000); (None, 1200)])))
           _ H).
Defined.

(** ** Every writer together *)

Lemma perform_store_ok (db : IDBDatabase) (op : operation) :
  store_ok (history db) -> store_ok (history (perform db op)).
Proof.
  intros Hok. destruct op as [song|k| |file]; simpl.
  - now apply saveSongToDB_store_ok.
  - unfold deleteSongFromDB. destruct (fault db); simpl; [assumption|].
    destruct Hok as [Hs Hnd]. split.
    + now apply StronglySorted_filter.
    + now apply NoDup_map_filter.
  - unfold clearHistoryFromDB. destruct (fault db); simpl; [assumption|].
    split; constructor.
  - now apply import_keeps_store_ok.
Qed.

Lemma perform_fault (db : IDBDatabase) (op : operation) :
  fault (perform db op) = fault db.
Proof.
  destruct op as [song|k| |file]; simpl.
  - unfold songchange, saveSongToDB. destruct (fault db) eqn:E; [exact E|].
    destruct (index_get _ _).
    + destruct (put _ _); simpl; exact E.
    + destruct (add _ _); simpl; exact E.
  - unfold deleteSongFromDB. destruct (fault db) eqn:E; simpl; exact E.
  - unfold clearHistoryFromDB. destruct (fault db) eqn:E; simpl; exact E.
  - unfold importHistoryAsFile. destruct file as [f|]; [|reflexivity].
    destruct (bind _ _); [|reflexivity].
    destruct (import_loop _) as [placed thrown].
    now destruct thrown, (transaction db placed).
Qed.

(** X25: whatever is saved, deleted, cleared and imported, in whatever
    order and whether or not the engine fails, the store that started
    empty never has a uri on two rows nor a uid on two rows, and
    [getHistoryFromDB] gives its rows in the order of their uids. *)
Theorem perform_all_unique (ops : list operation) (engine : option string) :
  let db := perform_all {| fault := engine; history := [] |} ops in
  NoDup (map uri (history db))
  /\ NoDup (map uid (history db))
  /\ StronglySorted uid_lt (history db)
  /\ (engine = None -> getHistoryFromDB db = Resolved (history db)).
Proof.
  simpl.
  assert (Hgen : forall db, store_ok (history db) ->
                            store_ok (history (perform_all db ops))
                            /\ fault (perform_all db ops) = fault db).
  { unfold perform_all. induction ops as [|op rest IH]; intros db Hok; simpl; [auto|].
    destruct (IH (perform db op) (perform_store_ok db op Hok)) as [H1 H2].
    split; [assumption|]. rewrite H2. apply perform_fault. }
  destruct (Hgen {| fault := engine; history := [] |}) as [[Hs Hnd] Hf].
  { split; constructor. }
  split; [assumption|]. split; [now apply sorted_NoDup_uid|]. split; [assumption|].
  intros ->. unfold getHistoryFromDB. now rewrite Hf.
Qed.

Lemma perform_all_unique_witness :
  (@None string = None)
  /\ getHistoryFromDB
       (perform_all {| fault := None; history := [] |}
          [Save Sample.rhapsody; Import (Some Sample.merge_document);
           Delete "k2"; Save Sample.rhapsody_again])
     = Resolved [set_listenDate Sample.rhapsody 2000].
Proof.
  split; [reflexivity|].
  exact (proj2 (proj2 (proj2 (perform_all_unique
                                [Save Sample.rhapsody;
                                 Import (Some Sample.merge_document);
                                 Delete "k2"; Save Sample.rhapsody_again]
                                None))) eq_refl).
Defined.

(** ** Importing a file twice *)

(** X26: the file that the export writes for a store is not imported
    into that store, not even in part: the request for its first record
    meets that record's own row, so the transaction is aborted, the
    store is as it was, and "Failed to import history" is shown once for
    each record of the file. *)
Theorem importHistoryAsFile_again (rows : list Song) :
  store_ok rows -> rows <> [] -> Forall interface_typed rows ->
  exists document : json,
    export_download (exportHistoryAsFile (open_db rows))
    = Some ("spicetify-history-download", document)
    /\ importHistoryAsFile (open_db rows) (Some (Document document))
       = {| import_db := open_db rows;
            import_notifications :=
              "Importing history..."
              :: repeat "Failed to import history" (List.length rows) |}.
Proof.
  intros Hok Hne Htyped.
  set (sorted := Array_sort (fun a b => listenDate a - listenDate b) rows).
  assert (Hperm : Permutation rows sorted) by apply Array_sort_Permutation.
  assert (Htyped' : Forall interface_typed sorted).
  { apply Forall_forall. intros x Hx. rewrite Forall_forall in Htyped.
    apply Htyped. eapply Permutation_in; [symmetry; exact Hperm|exact Hx]. }
  exists (JArray (map Song_toJSON sorted)). split.
  - unfold exportHistoryAsFile. simpl.
    destruct rows as [|x rest]; [contradiction|reflexivity].
  - unfold importHistoryAsFile. simpl.
    rewrite (import_loop_valid _ (Forall_isValidSong_Song_toJSON sorted Htyped')).
    rewrite map_asSong_Song_toJSON by assumption.
    rewrite (Permutation_length Hperm).
    destruct sorted as [|first others] eqn:Es.
    { symmetry in Hperm. apply Permutation_nil in Hperm. contradiction. }
    assert (Hfirst : In first rows).
    { eapply Permutation_in; [symmetry; exact Hperm|now left]. }
    assert (Hadd : add first rows = Failure ConstraintError).
    { unfold add.
      assert (Hk : key_exists (uid first) rows = true).
      { apply key_exists_In. now apply in_map. }
      now rewrite Hk. }
    unfold transaction, transaction_errors. simpl. now rewrite Hadd.
Qed.

Lemma importHistoryAsFile_again_witness :
  store_ok [Sample.rhapsody; Sample.love]
  /\ [Sample.rhapsody; Sample.love] <> []
  /\ Forall interface_typed [Sample.rhapsody; Sample.love]
  /\ exists document : json,
       export_download (exportHistoryAsFile (open_db [Sample.rhapsody; Sample.love]))
       = Some ("spicetify-history-download", document)
       /\ importHistoryAsFile (open_db [Sample.rhapsody; Sample.love])
                              (Some (Document document))
          = {| import_db := open_db [Sample.rhapsody; Sample.love];
               import_notifications :=
                 "Importing history..."
                 :: repeat "Failed to import history"
                           (List.length [Sample.rhapsody; Sample.love]) |}.
Proof.
  assert (Hne : [Sample.rhapsody; Sample.love] <> []) by discriminate.
  split; [exact sample_store_ok|]. split; [exact Hne|].
  split; [exact sample_interface_typed|].
  exact (importHistoryAsFile_again [Sample.rhapsody; Sample.love]
           sample_store_ok Hne sample_interface_typed).
Defined.

(** ** Saves of different tracks *)

(** The rows after a save, one by one. *)
Lemma saveSongToDB_In (rows : list Song) (s x : Song) :
  store_ok rows ->
  In x (history (snd (saveSongToDB (open_db rows) s)))
  <-> (In x rows /\ uri x <> uri s)
      \/ (exists y, In y rows /\ uri y = uri s
                    /\ x = set_listenDate y (listenDate s))
      \/ (x = s /\ ~ In (uri s) (map uri rows) /\ ~ In (uid s) (map uid rows)).
Proof.
  intros Hok.
  destruct (index_get (uri s) rows) as [found|] eqn:Eget.
  - assert (Hin : In (uri s) (map uri rows)).
    { apply index_get_Some in Eget as [H1 H2]. rewrite <- H2. now apply in_map. }
    rewrite (saveSongToDB_found rows s Hok Hin). simpl. rewrite in_map_iff. split.
    + intros [y [Hy Hyin]]. destruct (uri y =? uri s) eqn:E.
      * right; left. apply String.eqb_eq in E. exists y. auto.
      * left. subst x. apply String.eqb_neq in E. auto.
    + intros [[Hx Hne]|[[y [Hy [Hu ->]]]|[_ [Hf _]]]].
      * exists x. apply String.eqb_neq in Hne. now rewrite Hne.
      * exists y. apply String.eqb_eq in Hu. now rewrite Hu.
      * contradiction.
  - apply index_get_None in Eget.
    assert (Hfresh : forall y, In y rows -> uri y <> uri s).
    { intros y Hy E. apply Eget. rewrite <- E. now apply in_map. }
    destruct (key_exists (uid s) rows) eqn:Ek.
    + apply key_exists_In in Ek. rewrite (saveSongToDB_clash rows s Eget Ek). simpl.
      split.
      * intros Hx. left. auto.
      * intros [[Hx _]|[[y [Hy [Hu _]]]|[_ [_ Hf]]]]; [assumption| |contradiction].
        exfalso. now apply (Hfresh y).
    + assert (Huid : ~ In (uid s) (map uid rows)).
      { intros H. apply key_exists_In in H. congruence. }
      destruct (saveSongToDB_new rows s Hok Eget Huid) as [Hrun [Hperm _]].
      rewrite Hrun. simpl. split.
      * intros Hx. apply (Permutation_in _ (Permutation_sym Hperm)) in Hx.
        destruct Hx as [<-|Hx]; [right; right; auto | left; auto].
      * intros [[Hx _]|[[y [Hy [Hu _]]]|[-> _]]].
        -- eapply Permutation_in; [exact Hperm|]. now right.
        -- exfalso. now apply (Hfresh y).
        -- eapply Permutation_in; [exact Hperm|]. now left.
Qed.

Lemma saveSongToDB_fresh_later (rows : list Song) (a b : Song) :
  store_ok rows -> uri a <> uri b -> uid a <> uid b ->
  (~ In (uri b) (map uri (history (snd (saveSongToDB (open_db rows) a))))
   /\ ~ In (uid b) (map uid (history (snd (saveSongToDB (open_db rows) a)))))
  <-> (~ In (uri b) (map uri rows) /\ ~ In (uid b) (map uid rows)).
Proof.
  intros Hok Huri Huid. rewrite !in_map_iff. split; intros [H1 H2]; split.
  - intros [x [Hx Hin]]. apply H1.
    destruct (String.eqb_spec (uri x) (uri a)) as [E|E]; [congruence|].
    exists x. split; [assumption|]. apply saveSongToDB_In; [assumption|]. left. auto.
  - intros [x [Hx Hin]]. apply H2.
    destruct (String.eqb_spec (uri x) (uri a)) as [E|E].
    + exists (set_listenDate x (listenDate a)). split; [exact Hx|].
      apply saveSongToDB_In; [assumption|]. right; left. exists x. auto.
    + exists x. split; [assumption|]. apply saveSongToDB_In; [assumption|]. left. auto.
  - intros [x [Hx Hin]]. apply saveSongToDB_In in Hin; [|assumption].
    destruct Hin as [[Hin _]|[[y [Hy [Hu ->]]]|[-> _]]].
    + apply H1. eauto.
    + simpl in Hx. congruence.
    + congruence.
  - intros [x [Hx Hin]]. apply saveSongToDB_In in Hin; [|assumption].
    destruct Hin as [[Hin _]|[[y [Hy [Hu ->]]]|[-> _]]].
    + apply H2. eauto.
    + simpl in Hx. apply H2. eauto.
    + congruence.
Qed.

Lemma two_saves_In (rows : list Song) (a b x : Song) :
  store_ok rows -> uri a <> uri b -> uid a <> uid b ->
  In x (history (session (open_db rows) [a; b]))
  <-> (In x rows /\ uri x <> uri a /\ uri x <> uri b)
      \/ (exists y, In y rows /\ uri y = uri a
                    /\ x = set_listenDate y (listenDate a))
      \/ (x = a /\ ~ In (uri a) (map uri rows) /\ ~ In (uid a) (map uid rows))
      \/ (exists y, In y rows /\ uri y = uri b
                    /\ x = set_listenDate y (listenDate b))
      \/ (x = b /\ ~ In (uri b) (map uri rows) /\ ~ In (uid b) (map uid rows)).
Proof.
  intros Hok Huri Huid. unfold session. simpl. unfold songchange at 1.
  pose proof (saveSongToDB_store_ok (open_db rows) a Hok) as Hok1.
  pose proof (saveSongToDB_fresh_later rows a b Hok Huri Huid) as Hfresh.
  assert (Hfault : snd (saveSongToDB (open_db rows) a)
                   = open_db (history (snd (saveSongToDB (open_db rows) a)))).
  { unfold saveSongToDB. simpl. destruct (index_get _ _).
    - now destruct (put _ _).
    - now destruct (add _ _). }
  unfold songchange. rewrite Hfault.
  rewrite (saveSongToDB_In _ b x Hok1).
  split.
  - intros [[Hx Hne]|[[y [Hy [Hu ->]]]|[-> Hf]]].
    + apply saveSongToDB_In in Hx; [|assumption].
      destruct Hx as [[Hx Hna]|[H|H]]; auto.
    + apply saveSongToDB_In in Hy; [|assumption].
      destruct Hy as [[Hy Hna]|[[z [Hz [Hzu ->]]]|[-> _]]].
      * right; right; right; left. eauto.
      * simpl in Hu. congruence.
      * congruence.
    + right; right; right; right. split; [reflexivity|]. now apply Hfresh.
  - intros [[Hx [Hna Hnb]]|[[y [Hy [Hu ->]]]|[[-> Hf]|[[y [Hy [Hu ->]]]|[-> Hf]]]]].
    + left. split; [|assumption]. apply saveSongToDB_In; [assumption|]. left. auto.
    + left. split; [|simpl; congruence].
      apply saveSongToDB_In; [assumption|]. right; left. eauto.
    + left. split; [|assumption]. apply saveSongToDB_In; [assumption|]. auto.
    + right; left. exists y. split; [|auto].
      apply saveSongToDB_In; [assumption|]. left. split; [assumption|congruence].
    + right; right. split; [reflexivity|]. now apply Hfresh.
Qed.

Lemma NoDup_rows (rows : list Song) : store_ok rows -> NoDup rows.
Proof.
  intros [Hs _]. apply sorted_NoDup_uid in Hs. now apply NoDup_map_inv in Hs.
Qed.

(** X27: saves of two tracks of different uris and different uids can
    come in either order: the store afterwards is the same. *)
Theorem saves_commute (rows : list Song) (a b : Song) :
  store_ok rows -> uri a <> uri b -> uid a <> uid b ->
  session (open_db rows) [a; b] = session (open_db rows) [b; a].
Proof.
  intros Hok Huri Huid.
  assert (Hab : store_ok (history (session (open_db rows) [a; b])))
    by now apply session_store_ok.
  assert (Hba : store_ok (history (session (open_db rows) [b; a])))
    by now apply session_store_ok.
  assert (Hrows : history (session (open_db rows) [a; b])
                  = history (session (open_db rows) [b; a])).
  { apply store_rows_unique; [apply Hab | apply Hba |].
    apply NoDup_Permutation; [now apply NoDup_rows | now apply NoDup_rows |].
    intros x. rewrite (two_saves_In rows a b x Hok Huri Huid).
    rewrite (two_saves_In rows b a x Hok (not_eq_sym Huri) (not_eq_sym Huid)).
    tauto. }
  assert (Hfault : forall plays, fault (session (open_db rows) plays) = None).
  { intros plays. unfold session.
    assert (H : forall db, fault db = None -> fault (fold_left songchange plays db) = None).
    { induction plays as [|p rest IH]; intros db Hdb; simpl; [assumption|].
      apply IH. rewrite <- Hdb. apply (perform_fault db (Save p)). }
    now apply H. }
  pose proof (Hfault [a; b]) as F1. pose proof (Hfault [b; a]) as F2.
  destruct (session (open_db rows) [a; b]) as [f1 h1].
  destruct (session (open_db rows) [b; a]) as [f2 h2].
  simpl in *. now subst.
Qed.

Lemma saves_commute_witness :
  store_ok [Sample.rhapsody]
  /\ uri Sample.rhapsody_again <> uri Sample.love
  /\ uid Sample.rhapsody_again <> uid Sample.love
  /\ session (open_db [Sample.rhapsody]) [Sample.rhapsody_again; Sample.love]
     = session (open_db [Sample.rhapsody]) [Sample.love; Sample.rhapsody_again].
Proof.
  assert (Hok : store_ok [Sample.rhapsody]).
  { split; repeat constructor. simpl. tauto. }
  assert (Huri : uri Sample.rhapsody_again <> uri Sample.love) by discriminate.
  assert (Huid : uid Sample.rhapsody_again <> uid Sample.love) by discriminate.
  split; [exact Hok|]. split; [exact Huri|]. split; [exact Huid|].
  exact (saves_commute [Sample.rhapsody] Sample.rhapsody_again Sample.love
           Hok Huri Huid).
Defined.

(** ** The import that stops half way *)

Lemma importHistoryAsFile_commits_before_invalid_witness :
  Forall (fun j => isValidSong j = Normal true) [Song_toJSON Sample.rhapsody]
  /\ isValidSong Sample.love_without_duration <> Normal true
  /\ run_requests (map asSong [Song_toJSON Sample.rhapsody]) [Sample.love]
     = Success [Sample.rhapsody; Sample.love]
  /\ importHistoryAsFile (open_db [Sample.love])
       (Some (Document (JArray ([Song_toJSON Sample.rhapsody]
                                ++ Sample.love_without_duration :: []))))
     = {| import_db := open_db [Sample.rhapsody; Sample.love];
          import_notifications :=
            ["Importing history..."; "Failed to import history"] |}.
Proof.
  assert (Hvalid : Forall (fun j => isValidSong j = Normal true)
                          [Song_toJSON Sample.rhapsody]).
  { repeat constructor. }
  assert (Hbad : isValidSong Sample.love_without_duration <> Normal true)
    by discriminate.
  assert (Hrun : run_requests (map asSong [Song_toJSON Sample.rhapsody]) [Sample.love]
                 = Success [Sample.rhapsody; Sample.love]) by reflexivity.
  split; [exact Hvalid|]. split; [exact Hbad|]. split; [exact Hrun|].
  exact (importHistoryAsFile_commits_before_invalid [Sample.love]
           [Sample.rhapsody; Sample.love] [Song_toJSON Sample.rhapsody]
           Sample.love_without_duration [] Hvalid Hbad Hrun).
Defined.
